(** * ShadowGL matrix library, mesh update and the multi-engine voxel helper

    A shallow embedding of
    - [mat4] (the 4x4 matrix routines of the ShadowGL engine, math.js),
    - [Mesh.update] (mesh.js),
    - [createEngine] and the three engine adapters' block registry
      (js3dhelper.js).

    Numbers.  The development has two readings of a JavaScript number.

    In the first, below, numbers are exact real numbers, and an arithmetic
    step that has no real result (a division by zero, the tangent at a pole,
    arithmetic on the [undefined] read past the end of an array) ends the run
    in [Undef].  It is used where the numbers at hand are small integers, which
    binary32 holds exactly, where values are only moved, or where the numbers
    do not bear on the property: which entries a routine writes, in which
    order it reads its operands, what it throws.

    In the second, the module [IEEE] further down, numbers are the binary64
    values of IEEE 754 and every write into a [Float32Array] rounds to
    binary32.  Whatever depends on rounding, overflow or [NaN] is stated
    there.

    Arrays.  Every array ([Float32Array] matrices, plain coordinate arrays)
    is an object of a heap, named by a location, so that [out] and [a] may be
    the same object, as they are in [Mesh.update]. *)

From Stdlib Require Import Reals Lra.
From stdpp Require Import gmap strings list fin_maps pretty.

Local Open Scope R_scope.

#[global] Instance R_eq_dec : EqDecision R := Req_dec_T.

(** ** Heap of arrays and the run monad *)

Abbreviation loc := positive (only parsing).
Abbreviation heap := (gmap positive (list R)) (only parsing).

Inductive js_error : Type :=
| TypeError (msg : string)
| RangeError (msg : string)
| ReferenceError (msg : string)
| Error (msg : string).

Inductive outcome (A : Type) : Type :=
| Ret (a : A) (h : heap)
| Throw (e : js_error) (h : heap)
| Undef.
Arguments Ret {A} a h.
Arguments Throw {A} e h.
Arguments Undef {A}.

Definition M (A : Type) : Type := heap → outcome A.

#[global] Instance M_ret : MRet M := λ A a h, Ret a h.
#[global] Instance M_bind : MBind M := λ A B f m h,
  match m h with
  | Ret a h' => f a h'
  | Throw e h' => Throw e h'
  | Undef => Undef
  end.

Definition throw {A} (e : js_error) : M A := λ h, Throw e h.

(** [a[i]] used as a number: past the end it is [undefined]. *)
Definition load (a : loc) (i : nat) : M R := λ h,
  match h !! a with
  | Some m => match m !! i with Some x => Ret x h | None => Undef end
  | None => Undef
  end.

(** [out[i] = v]; a typed array ignores a write past its end. *)
Definition store (out : loc) (i : nat) (v : R) : M unit := λ h,
  match h !! out with
  | Some m => Ret () (<[out := <[i := v]> m]> h)
  | None => Undef
  end.

(** [new Float32Array(..)]: a fresh object. *)
Definition alloc (m : list R) : M loc := λ h,
  let l := fresh (dom h) in Ret l (<[l := m]> h).

(** [x / y]. *)
Definition div (x y : R) : M R :=
  if decide (y = 0) then (λ _, Undef) else mret (x / y).

(** [Math.tan(x)]. *)
Definition Math_tan (x : R) : M R :=
  if decide (cos x = 0) then (λ _, Undef) else mret (tan x).

(** [Math.hypot(x, y, z)]. *)
Definition Math_hypot (x y z : R) : R := sqrt (x * x + y * y + z * z).

(** ** mat4 (math.js) *)

(** The routines in the first reading.  [perspective], [invert] and [lookAt]
    divide and compare with zero, so what they return depends on rounding:
    the theorems on them are about [IEEE.mat4.perspective],
    [IEEE.mat4.invert] and [IEEE.mat4.lookAt].  Here the three are there as
    properties of the object [mat4_object]. *)

Module mat4.

Definition create : M loc :=
  out ← alloc (replicate 16 0);
  store out 15 1;; store out 10 1;; store out 5 1;; store out 0 1;;
  mret out.

Definition clone (a : loc) : M loc := λ h,
  match h !! a with
  | Some m => alloc m h
  | None => Undef
  end.

(** [out.set(a)]: copies [a] to the front of [out], and throws when [a] is
    the longer one. *)
Definition copy (out a : loc) : M loc := λ h,
  match h !! out, h !! a with
  | Some mo, Some ma =>
      if decide (length ma ≤ length mo)%nat
      then Ret out (<[out := ma ++ drop (length ma) mo]> h)
      else Throw (RangeError "offset is out of bounds") h
  | _, _ => Undef
  end.

Definition perspective (out : loc) (fov aspect near far : R) : M loc :=
  half ← div fov 2;
  t ← Math_tan half;
  f ← div 1 t;
  nf ← div 1 (near - far);

  o0 ← div f aspect;
  store out 0 o0;;
  store out 1 0;;
  store out 2 0;;
  store out 3 0;;

  store out 4 0;;
  store out 5 f;;
  store out 6 0;;
  store out 7 0;;

  store out 8 0;;
  store out 9 0;;
  store out 10 ((far + near) * nf);;
  store out 11 (-1);;

  store out 12 0;;
  store out 13 0;;
  store out 14 ((2 * far * near) * nf);;
  store out 15 0;;

  mret out.

Definition ortho (out : loc) (left right bottom top near far : R) : M loc :=
  lr ← div 1 (left - right);
  bt ← div 1 (bottom - top);
  nf ← div 1 (near - far);

  store out 0 (-2 * lr);;
  store out 5 (-2 * bt);;
  store out 10 (2 * nf);;

  store out 12 ((left + right) * lr);;
  store out 13 ((top + bottom) * bt);;
  store out 14 ((far + near) * nf);;
  store out 15 1;;

  mret out.

Definition multiply (out a b : loc) : M loc :=
  let o := out in

  a00 ← load a 0; a01 ← load a 1; a02 ← load a 2; a03 ← load a 3;
  a10 ← load a 4; a11 ← load a 5; a12 ← load a 6; a13 ← load a 7;
  a20 ← load a 8; a21 ← load a 9; a22 ← load a 10; a23 ← load a 11;
  a30 ← load a 12; a31 ← load a 13; a32 ← load a 14; a33 ← load a 15;

  b00 ← load b 0; b01 ← load b 1; b02 ← load b 2; b03 ← load b 3;
  b10 ← load b 4; b11 ← load b 5; b12 ← load b 6; b13 ← load b 7;
  b20 ← load b 8; b21 ← load b 9; b22 ← load b 10; b23 ← load b 11;
  b30 ← load b 12; b31 ← load b 13; b32 ← load b 14; b33 ← load b 15;

  store o 0 (a00*b00 + a01*b10 + a02*b20 + a03*b30);;
  store o 1 (a00*b01 + a01*b11 + a02*b21 + a03*b31);;
  store o 2 (a00*b02 + a01*b12 + a02*b22 + a03*b32);;
  store o 3 (a00*b03 + a01*b13 + a02*b23 + a03*b33);;

  store o 4 (a10*b00 + a11*b10 + a12*b20 + a13*b30);;
  store o 5 (a10*b01 + a11*b11 + a12*b21 + a13*b31);;
  store o 6 (a10*b02 + a11*b12 + a12*b22 + a13*b32);;
  store o 7 (a10*b03 + a11*b13 + a12*b23 + a13*b33);;

  store o 8 (a20*b00 + a21*b10 + a22*b20 + a23*b30);;
  store o 9 (a20*b01 + a21*b11 + a22*b21 + a23*b31);;
  store o 10 (a20*b02 + a21*b12 + a22*b22 + a23*b32);;
  store o 11 (a20*b03 + a21*b13 + a22*b23 + a23*b33);;

  store o 12 (a30*b00 + a31*b10 + a32*b20 + a33*b30);;
  store o 13 (a30*b01 + a31*b11 + a32*b21 + a33*b31);;
  store o 14 (a30*b02 + a31*b12 + a32*b22 + a33*b32);;
  store o 15 (a30*b03 + a31*b13 + a32*b23 + a33*b33);;

  mret o.

Definition translate (out a v : loc) : M loc :=
  x ← load v 0; y ← load v 1; z ← load v 2;

  a0 ← load a 0; a4 ← load a 4; a8 ← load a 8; a12 ← load a 12;
  store out 12 (a0 * x + a4 * y + a8 * z + a12);;
  a1 ← load a 1; a5 ← load a 5; a9 ← load a 9; a13 ← load a 13;
  store out 13 (a1 * x + a5 * y + a9 * z + a13);;
  a2 ← load a 2; a6 ← load a 6; a10 ← load a 10; a14 ← load a 14;
  store out 14 (a2 * x + a6 * y + a10 * z + a14);;
  a3 ← load a 3; a7 ← load a 7; a11 ← load a 11; a15 ← load a 15;
  store out 15 (a3 * x + a7 * y + a11 * z + a15);;

  mret out.

Definition scale (out a v : loc) : M loc :=
  x ← load v 0; y ← load v 1; z ← load v 2;

  a0 ← load a 0; store out 0 (a0 * x);;
  a1 ← load a 1; store out 1 (a1 * x);;
  a2 ← load a 2; store out 2 (a2 * x);;
  a3 ← load a 3; store out 3 (a3 * x);;

  a4 ← load a 4; store out 4 (a4 * y);;
  a5 ← load a 5; store out 5 (a5 * y);;
  a6 ← load a 6; store out 6 (a6 * y);;
  a7 ← load a 7; store out 7 (a7 * y);;

  a8 ← load a 8; store out 8 (a8 * z);;
  a9 ← load a 9; store out 9 (a9 * z);;
  a10 ← load a 10; store out 10 (a10 * z);;
  a11 ← load a 11; store out 11 (a11 * z);;

  mret out.

Definition rotateX (out a : loc) (rad : R) : M loc :=
  let s := sin rad in
  let c := cos rad in

  a10 ← load a 4;
  a11 ← load a 5;
  a12 ← load a 6;
  a13 ← load a 7;
  a20 ← load a 8;
  a21 ← load a 9;
  a22 ← load a 10;
  a23 ← load a 11;

  store out 4 (a10 * c + a20 * s);;
  store out 5 (a11 * c + a21 * s);;
  store out 6 (a12 * c + a22 * s);;
  store out 7 (a13 * c + a23 * s);;

  store out 8 (a20 * c - a10 * s);;
  store out 9 (a21 * c - a11 * s);;
  store out 10 (a22 * c - a12 * s);;
  store out 11 (a23 * c - a13 * s);;

  mret out.

Definition rotateY (out a : loc) (rad : R) : M loc :=
  let s := sin rad in
  let c := cos rad in

  a00 ← load a 0;
  a01 ← load a 1;
  a02 ← load a 2;
  a03 ← load a 3;
  a20 ← load a 8;
  a21 ← load a 9;
  a22 ← load a 10;
  a23 ← load a 11;

  store out 0 (a00 * c - a20 * s);;
  store out 1 (a01 * c - a21 * s);;
  store out 2 (a02 * c - a22 * s);;
  store out 3 (a03 * c - a23 * s);;

  store out 8 (a00 * s + a20 * c);;
  store out 9 (a01 * s + a21 * c);;
  store out 10 (a02 * s + a22 * c);;
  store out 11 (a03 * s + a23 * c);;

  mret out.

Definition rotateZ (out a : loc) (rad : R) : M loc :=
  let s := sin rad in
  let c := cos rad in

  a00 ← load a 0;
  a01 ← load a 1;
  a02 ← load a 2;
  a03 ← load a 3;
  a10 ← load a 4;
  a11 ← load a 5;
  a12 ← load a 6;
  a13 ← load a 7;

  store out 0 (a00 * c + a10 * s);;
  store out 1 (a01 * c + a11 * s);;
  store out 2 (a02 * c + a12 * s);;
  store out 3 (a03 * c + a13 * s);;

  store out 4 (a10 * c - a00 * s);;
  store out 5 (a11 * c - a01 * s);;
  store out 6 (a12 * c - a02 * s);;
  store out 7 (a13 * c - a03 * s);;

  mret out.

(** Returns [null] ([None]) for a zero determinant, [out] otherwise. *)
Definition invert (out a : loc) : M (option loc) :=
  let m := a in
  let o := out in

  a00 ← load m 0; a01 ← load m 1; a02 ← load m 2; a03 ← load m 3;
  a10 ← load m 4; a11 ← load m 5; a12 ← load m 6; a13 ← load m 7;
  a20 ← load m 8; a21 ← load m 9; a22 ← load m 10; a23 ← load m 11;
  a30 ← load m 12; a31 ← load m 13; a32 ← load m 14; a33 ← load m 15;

  let b00 := a00 * a11 - a01 * a10 in
  let b01 := a00 * a12 - a02 * a10 in
  let b02 := a00 * a13 - a03 * a10 in
  let b03 := a01 * a12 - a02 * a11 in
  let b04 := a01 * a13 - a03 * a11 in
  let b05 := a02 * a13 - a03 * a12 in
  let b06 := a20 * a31 - a21 * a30 in
  let b07 := a20 * a32 - a22 * a30 in
  let b08 := a20 * a33 - a23 * a30 in
  let b09 := a21 * a32 - a22 * a31 in
  let b10 := a21 * a33 - a23 * a31 in
  let b11 := a22 * a33 - a23 * a32 in

  let det :=
    b00 * b11 - b01 * b10 + b02 * b09 +
    b03 * b08 - b04 * b07 + b05 * b06 in

  if decide (det = 0) then mret None else

  invDet ← div 1 det;

  store o 0 (( a11*b11 - a12*b10 + a13*b09) * invDet);;
  store o 1 ((-a01*b11 + a02*b10 - a03*b09) * invDet);;
  store o 2 (( a31*b05 - a32*b04 + a33*b03) * invDet);;
  store o 3 ((-a21*b05 + a22*b04 - a23*b03) * invDet);;

  store o 4 ((-a10*b11 + a12*b08 - a13*b07) * invDet);;
  store o 5 (( a00*b11 - a02*b08 + a03*b07) * invDet);;
  store o 6 ((-a30*b05 + a32*b02 - a33*b01) * invDet);;
  store o 7 (( a20*b05 - a22*b02 + a23*b01) * invDet);;

  store o 8 (( a10*b10 - a11*b08 + a13*b06) * invDet);;
  store o 9 ((-a00*b10 + a01*b08 - a03*b06) * invDet);;
  store o 10 (( a30*b04 - a31*b02 + a33*b00) * invDet);;
  store o 11 ((-a20*b04 + a21*b02 - a23*b00) * invDet);;

  store o 12 ((-a10*b09 + a11*b07 - a12*b06) * invDet);;
  store o 13 (( a00*b09 - a01*b07 + a02*b06) * invDet);;
  store o 14 ((-a30*b03 + a31*b01 - a32*b00) * invDet);;
  store o 15 (( a20*b03 - a21*b01 + a22*b00) * invDet);;

  mret (Some o).

Definition lookAt (out eye center up : loc) : M loc :=
  eyex ← load eye 0; eyey ← load eye 1; eyez ← load eye 2;
  upx ← load up 0; upy ← load up 1; upz ← load up 2;
  centerx ← load center 0; centery ← load center 1; centerz ← load center 2;

  let z0 := eyex - centerx in
  let z1 := eyey - centery in
  let z2 := eyez - centerz in

  let len := Math_hypot z0 z1 z2 in
  '(z0, z1, z2) ←
    (if decide (len = 0) then
       mret (z0, z1, 1)
     else
       z0 ← div z0 len;
       z1 ← div z1 len;
       z2 ← div z2 len;
       mret (z0, z1, z2));

  let x0 := upy * z2 - upz * z1 in
  let x1 := upz * z0 - upx * z2 in
  let x2 := upx * z1 - upy * z0 in
  let len := Math_hypot x0 x1 x2 in
  '(x0, x1, x2) ←
    (if decide (len = 0) then
       mret (1, x1, x2)
     else
       x0 ← div x0 len;
       x1 ← div x1 len;
       x2 ← div x2 len;
       mret (x0, x1, x2));

  let y0 := z1 * x2 - z2 * x1 in
  let y1 := z2 * x0 - z0 * x2 in
  let y2 := z0 * x1 - z1 * x0 in

  store out 0 x0;;
  store out 1 y0;;
  store out 2 z0;;
  store out 3 0;;

  store out 4 x1;;
  store out 5 y1;;
  store out 6 z1;;
  store out 7 0;;

  store out 8 x2;;
  store out 9 y2;;
  store out 10 z2;;
  store out 11 0;;

  store out 12 (-(x0 * eyex + x1 * eyey + x2 * eyez));;
  store out 13 (-(y0 * eyex + y1 * eyey + y2 * eyez));;
  store out 14 (-(z0 * eyex + z1 * eyey + z2 * eyez));;
  store out 15 1;;

  mret out.

End mat4.

(** ** The [mat4] object as the callers see it: its properties by name *)

Inductive value : Type :=
| VUndefined
| VNull
| VNum (r : R)
| VRef (l : loc).

Abbreviation method := (list value → M value) (only parsing).

Definition returning_ref (m : M loc) : M value := l ← m; mret (VRef l).

Definition returning_ref_or_null (m : M (option loc)) : M value :=
  r ← m; mret (match r with Some l => VRef l | None => VNull end).

(** A call whose arguments are not the arrays and numbers the routine works
    on is outside the model. *)
Definition unmodelled : M value := λ _, Undef.

(** The properties of the object literal [mat4], in the order of math.js. *)
Definition mat4_object : list (string * method) :=
  [ ("create", λ _, returning_ref mat4.create);
    ("clone", λ args,
       match args with VRef a :: _ => returning_ref (mat4.clone a) | _ => unmodelled end);
    ("copy", λ args,
       match args with
       | VRef out :: VRef a :: _ => returning_ref (mat4.copy out a)
       | _ => unmodelled end);
    ("perspective", λ args,
       match args with
       | VRef out :: VNum fov :: VNum aspect :: VNum near :: VNum far :: _ =>
           returning_ref (mat4.perspective out fov aspect near far)
       | _ => unmodelled end);
    ("ortho", λ args,
       match args with
       | VRef out :: VNum l :: VNum r :: VNum b :: VNum t :: VNum n :: VNum f :: _ =>
           returning_ref (mat4.ortho out l r b t n f)
       | _ => unmodelled end);
    ("multiply", λ args,
       match args with
       | VRef out :: VRef a :: VRef b :: _ => returning_ref (mat4.multiply out a b)
       | _ => unmodelled end);
    ("translate", λ args,
       match args with
       | VRef out :: VRef a :: VRef v :: _ => returning_ref (mat4.translate out a v)
       | _ => unmodelled end);
    ("scale", λ args,
       match args with
       | VRef out :: VRef a :: VRef v :: _ => returning_ref (mat4.scale out a v)
       | _ => unmodelled end);
    ("rotateX", λ args,
       match args with
       | VRef out :: VRef a :: VNum rad :: _ => returning_ref (mat4.rotateX out a rad)
       | _ => unmodelled end);
    ("rotateY", λ args,
       match args with
       | VRef out :: VRef a :: VNum rad :: _ => returning_ref (mat4.rotateY out a rad)
       | _ => unmodelled end);
    ("rotateZ", λ args,
       match args with
       | VRef out :: VRef a :: VNum rad :: _ => returning_ref (mat4.rotateZ out a rad)
       | _ => unmodelled end);
    ("invert", λ args,
       match args with
       | VRef out :: VRef a :: _ => returning_ref_or_null (mat4.invert out a)
       | _ => unmodelled end);
    ("lookAt", λ args,
       match args with
       | VRef out :: VRef eye :: VRef center :: VRef up :: _ =>
           returning_ref (mat4.lookAt out eye center up)
       | _ => unmodelled end) ].

Fixpoint get_property (obj : list (string * method)) (name : string) : option method :=
  match obj with
  | [] => None
  | (k, f) :: rest => if decide (k = name) then Some f else get_property rest name
  end.

(** [mat4.name(args)]: calling a property the object does not have is a
    [TypeError]. *)
Definition mat4_call (name : string) (args : list value) : M value :=
  match get_property mat4_object name with
  | Some f => f args
  | None => throw (TypeError ("mat4." +:+ name +:+ " is not a function"))
  end.

(** ** Mesh (mesh.js) *)

(** The fields [update] touches; the GL buffers, the shader program and the
    location tables play no part in it. *)
Record Mesh : Type := {
  rotationSpeed : loc;
  rotation : loc;
  model : loc
}.

Module Mesh_.

(** The part of the constructor that sets those fields:
    [options.rotationSpeed || [0.01, 0.01, 0]], [[0, 0, 0]], [mat4.create()]. *)
Definition constructor (options_rotationSpeed : option loc) : M Mesh :=
  speed ← match options_rotationSpeed with
          | Some l => mret l
          | None => alloc [1 / 100; 1 / 100; 0]
          end;
  rot ← alloc [0; 0; 0];
  mdl ← mat4.create;
  mret {| rotationSpeed := speed; rotation := rot; model := mdl |}.

Definition update (this : Mesh) : M unit :=
  r ← load (rotation this) 0; s ← load (rotationSpeed this) 0;
  store (rotation this) 0 (r + s);;
  r ← load (rotation this) 1; s ← load (rotationSpeed this) 1;
  store (rotation this) 1 (r + s);;
  r ← load (rotation this) 2; s ← load (rotationSpeed this) 2;
  store (rotation this) 2 (r + s);;

  mat4_call "identity" [VRef (model this)];;
  r ← load (rotation this) 0;
  mat4_call "rotateX" [VRef (model this); VRef (model this); VNum r];;
  r ← load (rotation this) 1;
  mat4_call "rotateY" [VRef (model this); VRef (model this); VNum r];;
  r ← load (rotation this) 2;
  mat4_call "rotateZ" [VRef (model this); VRef (model this); VNum r];;
  mret ().

(** [update] called [n] times in a row; a throw ends the sequence. *)
Fixpoint update_times (n : nat) (this : Mesh) : M unit :=
  match n with
  | O => mret ()
  | S k => update this;; update_times k this
  end.

End Mesh_.

(** ** Matrices as the specification reads them *)

(** Column-major reading of the 16 numbers: the element in column [c] and row
    [r] is stored at index [4 * c + r]. *)
Definition entry (m : list R) (r c : nat) : R := nth (4 * c + r) m 0.

(** The matrix product [a × b] of two matrices read column-major, stored
    column-major: element (r, c) is the dot product of row [r] of [a] with
    column [c] of [b]. *)
Definition colmajor_product (a b : list R) : list R :=
  (λ i : nat,
     let r := (i mod 4)%nat in
     let c := (i / 4)%nat in
     entry a r 0 * entry b 0 c + entry a r 1 * entry b 1 c +
     entry a r 2 * entry b 2 c + entry a r 3 * entry b 3 c) <$> seq 0 16.

Definition identity_matrix : list R :=
  [1; 0; 0; 0;  0; 1; 0; 0;  0; 0; 1; 0;  0; 0; 0; 1].

(** Translation by [(x, y, z)] and scaling by [(x, y, z)], column-major. *)
Definition translation_matrix (x y z : R) : list R :=
  [1; 0; 0; 0;  0; 1; 0; 0;  0; 0; 1; 0;  x; y; z; 1].

Definition scaling_matrix (x y z : R) : list R :=
  [x; 0; 0; 0;  0; y; 0; 0;  0; 0; z; 0;  0; 0; 0; 1].

(** The determinant, by cofactor expansion along the first row of the
    column-major reading. *)
Definition det3 (a b c d e f g h i : R) : R :=
  a * (e * i - f * h) - b * (d * i - f * g) + c * (d * h - e * g).

Definition minor (m : list R) (r1 r2 r3 c1 c2 c3 : nat) : R :=
  det3 (entry m r1 c1) (entry m r1 c2) (entry m r1 c3)
       (entry m r2 c1) (entry m r2 c2) (entry m r2 c3)
       (entry m r3 c1) (entry m r3 c2) (entry m r3 c3).

Definition determinant (m : list R) : R :=
    entry m 0 0 * minor m 1 2 3 1 2 3
  - entry m 0 1 * minor m 1 2 3 0 2 3
  + entry m 0 2 * minor m 1 2 3 0 1 3
  - entry m 0 3 * minor m 1 2 3 0 1 2.


(** ** Engine loader (js3dhelper.js) *)

(** A loaded module, as far as the loader looks at it: the names whose export
    is truthy, and the same for its [pc] member when it has one. *)
Record js_module : Type := {
  exports : list string;
  pc_member : option (list string)
}.

Definition has (m : js_module) (name : string) : bool :=
  bool_decide (name ∈ exports m).

Definition pc_has (m : js_module) (name : string) : bool :=
  match pc_member m with
  | Some names => bool_decide (name ∈ names)
  | None => false
  end.

Inductive engine : Type := three | babylon | playcanvas.

(** The handle a successful initialisation returns. *)
Record handle : Type := {
  libName : string;
  lib : js_module
}.

(** What [createEngine] does to the host, in order. *)
Inductive event : Type :=
| Import (spec : string)
| Init (e : engine) (m : js_module).

Definition DEFAULT_ORDER : list string := ["three"; "@babylonjs/core"; "playcanvas"].

Definition no_engine_message : string :=
  "No supported 3D engine available. Install or load three, @babylonjs/core or playcanvas.".

(** How one turn of the loop over [prefer] ends. *)
Inductive turn : Type :=
| Returned (hd : handle)
| Fell_through
| Thrown (e : js_error).

Section loader.
(** The host: what a dynamic [import(spec)] resolves to ([None]: it
    rejects); the global [window], [None] where no such name is defined (a
    worker, Node), and otherwise [window.pc] when that is truthy; and whether
    an engine's initialisation runs to its end on a module ([false]: one of
    the library's constructors throws). *)
Variable import : string → option js_module.
Variable window : option (option js_module).
Variable init_succeeds : engine → js_module → bool.

(** A step logs its events and may produce a value. *)
Definition step (A : Type) : Type := list event * option A.

Definition tryImport (spec : string) : step js_module :=
  ([Import spec], import spec).

(** [a || b] on two awaited loads: [b] runs only when [a] produced [null]. *)
Definition or_else (a : step js_module) (b : step js_module) : step js_module :=
  match a with
  | (t, Some m) => (t, Some m)
  | (t, None) => (t ++ b.1, b.2)
  end.

Definition initThree (m : js_module) : step handle :=
  ([Init three m],
   if init_succeeds three m then Some {| libName := "three"; lib := m |} else None).

Definition initBabylon (m : js_module) : step handle :=
  ([Init babylon m],
   if init_succeeds babylon m then Some {| libName := "babylon"; lib := m |} else None).

Definition initPlaycanvas (m : js_module) : step handle :=
  ([Init playcanvas m],
   if init_succeeds playcanvas m then Some {| libName := "playcanvas"; lib := m |} else None).

(** [if (mod) { try { return await init(mod, ..) } catch (e) {} }]. *)
Definition if_loaded (load : step js_module) (init : js_module → step handle)
    : list event * turn :=
  match load with
  | (t, Some m) =>
      match init m with
      | (t', Some hd) => (t ++ t', Returned hd)
      | (t', None) => (t ++ t', Fell_through)
      end
  | (t, None) => (t, Fell_through)
  end.

(** One turn of the loop over [prefer].  In the turn of [playcanvas] the
    expression [(window && window.pc ? window.pc : null)] is evaluated, outside
    every [try], when the import produced [null]: where [window] is not
    defined, reading it throws. *)
Definition candidate (name : string) : list event * turn :=
  if decide (name = "three") then
    if_loaded (tryImport "three") initThree
  else if decide (name = "@babylonjs/core" ∨ name = "babylon") then
    if_loaded (or_else (tryImport "@babylonjs/core") (tryImport "babylonjs")) initBabylon
  else if decide (name = "playcanvas") then
    match tryImport "playcanvas" with
    | (t, Some m) => if_loaded (t, Some m) initPlaycanvas
    | (t, None) =>
        match window with
        | Some pc => if_loaded (t, pc) initPlaycanvas
        | None => (t, Thrown (ReferenceError "window is not defined"))
        end
    end
  else
    if_loaded (tryImport name) (λ m,
      if has m "WebGLRenderer" && has m "Scene" && has m "PerspectiveCamera" then
        initThree m
      else if has m "Engine" && has m "Scene" then
        initBabylon m
      else if has m "Application" || pc_has m "Application" then
        initPlaycanvas m
      else ([], None)).

Fixpoint for_of (prefer : list string) : list event * turn :=
  match prefer with
  | [] => ([], Fell_through)
  | name :: rest =>
      match candidate name with
      | (t, Fell_through) => (t ++ (for_of rest).1, (for_of rest).2)
      | stop => stop
      end
  end.

(** [options.prefer || DEFAULT_ORDER]: an array, even an empty one, is
    truthy. *)
Definition createEngine (options_prefer : option (list string))
    : list event * (handle + js_error) :=
  let prefer := default DEFAULT_ORDER options_prefer in
  match for_of prefer with
  | (t, Returned hd) => (t, inl hd)
  | (t, Thrown e) => (t, inr e)
  | (t, Fell_through) => (t, inr (Error no_engine_message))
  end.

(** *** The loader as the specification describes it

    For each candidate name in turn: the dynamic load, then the
    engine-specific initialisation; the first candidate for which both succeed
    gives the handle, any failure goes on to the next, and an exhausted list
    is the error "No supported 3D engine available". *)

(** The module specifiers a name stands for, in the order they are tried. *)
Definition specifiers (name : string) : list string :=
  if decide (name = "three") then ["three"]
  else if decide (name = "@babylonjs/core" ∨ name = "babylon") then
    ["@babylonjs/core"; "babylonjs"]
  else [name].

(** The loads of a candidate: each specifier until one resolves. *)
Fixpoint loads (specs : list string) : step js_module :=
  match specs with
  | [] => ([], None)
  | spec :: rest =>
      match import spec with
      | Some m => ([Import spec], Some m)
      | None => (Import spec :: (loads rest).1, (loads rest).2)
      end
  end.

(** The module a candidate is initialised on: the one its loads produced,
    and for [playcanvas] else the global [window.pc]. *)
Definition loaded (name : string) : option js_module :=
  match (loads (specifiers name)).2 with
  | Some m => Some m
  | None => if decide (name = "playcanvas") then mjoin window else None
  end.

(** The engine a candidate is initialised as. *)
Definition engine_for (name : string) (m : js_module) : option engine :=
  if decide (name = "three") then Some three
  else if decide (name = "@babylonjs/core" ∨ name = "babylon") then Some babylon
  else if decide (name = "playcanvas") then Some playcanvas
  else if has m "WebGLRenderer" && has m "Scene" && has m "PerspectiveCamera" then Some three
  else if has m "Engine" && has m "Scene" then Some babylon
  else if has m "Application" || pc_has m "Application" then Some playcanvas
  else None.

Definition engine_name (e : engine) : string :=
  match e with
  | three => "three"
  | babylon => "babylon"
  | playcanvas => "playcanvas"
  end.

(** A candidate's attempt: its loads, then its initialisation when a module
    and an engine came out; the handle when the initialisation succeeded. *)
Definition attempt (name : string) : step handle :=
  let t := (loads (specifiers name)).1 in
  match loaded name with
  | Some m =>
      match engine_for name m with
      | Some e =>
          (t ++ [Init e m],
           if init_succeeds e m then Some {| libName := engine_name e; lib := m |}
           else None)
      | None => (t, None)
      end
  | None => (t, None)
  end.

(** The first candidate whose attempt succeeds, after the attempts before it. *)
Fixpoint first_success (prefer : list string) : list event * (handle + js_error) :=
  match prefer with
  | [] => ([], inr (Error no_engine_message))
  | name :: rest =>
      match attempt name with
      | (t, Some hd) => (t, inl hd)
      | (t, None) => (t ++ (first_success rest).1, (first_success rest).2)
      end
  end.

(** [playcanvas] cannot be imported and there is no global [window]. *)
Definition window_missing : bool :=
  match import "playcanvas", window with
  | None, None => true
  | _, _ => false
  end.

(** The loop reaches the turn of [playcanvas] with no [window] to fall back
    on: [playcanvas] cannot be imported, the host has no global [window], and
    no candidate before it succeeds. *)
Fixpoint reaches_missing_window (prefer : list string) : bool :=
  match prefer with
  | [] => false
  | name :: rest =>
      if bool_decide (name = "playcanvas") && window_missing
      then true
      else match (attempt name).2 with
           | Some _ => false
           | None => reaches_missing_window rest
           end
  end.
End loader.

(** ** The block registry of the three adapters (js3dhelper.js) *)

Inductive material : Type :=
| Textured (url : string)
| Colored (color : Z)
| Diffuse (r g b : R).

(** The native object of a block: a three.js mesh, a Babylon mesh or a
    PlayCanvas entity.  [oid] is the identity of the object. *)
Record block : Type := {
  oid : nat;
  position : R * R * R;
  block_material : material
}.

Record settings : Type := {
  texture : option string;
  color : option Z
}.

(** What an adapter's closures share: the objects attached to the scene (the
    children of [world], the meshes of the Babylon scene, the children of
    [app.root]), the registry [blocks], the objects already disposed of, the
    assets of the PlayCanvas application, and the next object identity. *)
Record adapter : Type := {
  attached : list block;
  blocks : gmap string block;
  disposed : list nat;
  assets : list string;
  next_oid : nat
}.

(** [`${x},${y},${z}`] on integer coordinates. *)
Definition blockKey (x y z : Z) : string :=
  pretty x +:+ "," +:+ pretty y +:+ "," +:+ pretty z.

(** [settings.texture] is used when it is a non-empty string. *)
Definition texture_given (s : settings) : option string :=
  match texture s with
  | Some url => if decide (url = "") then None else Some url
  | None => None
  end.

(** [settings.color || 0x8B4513]. *)
Definition color_or_default (s : settings) : Z :=
  match color s with
  | Some c => if decide (c = 0%Z) then 0x8B4513%Z else c
  | None => 0x8B4513%Z
  end.

Definition block_position (blockSize : R) (x y z : Z) : R * R * R :=
  (IZR x * blockSize + blockSize / 2,
   IZR y * blockSize + blockSize / 2,
   IZR z * blockSize + blockSize / 2).

Module Three.
Section adapter.
(** [opts.blockSize || 1], and the host: whether the loader gets the
    texture. *)
Variable blockSize : R.
Variable texture_loads : string → bool.

Definition makeMaterial (s : settings) : material :=
  match texture_given s with
  | Some url =>
      if texture_loads url then Textured url else Colored (color_or_default s)
  | None => Colored (color_or_default s)
  end.

Definition addBlock (x y z : Z) (s : settings) (st : adapter) : block * adapter :=
  let key := blockKey x y z in
  match blocks st !! key with
  | Some b => (b, st)
  | None =>
      let mat := makeMaterial s in
      let mesh := {| oid := next_oid st;
                     position := block_position blockSize x y z;
                     block_material := mat |} in
      (mesh, {| attached := attached st ++ [mesh];
                blocks := <[key := mesh]> (blocks st);
                disposed := disposed st;
                assets := assets st;
                next_oid := S (next_oid st) |})
  end.

Definition removeBlock (x y z : Z) (st : adapter) : bool * adapter :=
  let key := blockKey x y z in
  match blocks st !! key with
  | None => (false, st)
  | Some m =>
      (true, {| attached := filter (λ o, oid o ≠ oid m) (attached st);
                blocks := delete key (blocks st);
                disposed := oid m :: disposed st;
                assets := assets st;
                next_oid := next_oid st |})
  end.
End adapter.
End Three.

Module Babylon.
Section adapter.
(** [opts.blockSize || 1], and the host: whether [new Texture(..)] returns
    rather than throws. *)
Variable blockSize : R.
Variable texture_loads : string → bool.

Definition makeMaterial (s : settings) : material :=
  match texture_given s with
  | Some url =>
      if texture_loads url then Textured url else Colored (color_or_default s)
  | None => Colored (color_or_default s)
  end.

(** [MeshBuilder.CreateBox(.., scene)] attaches the new mesh to the scene
    at once; the material follows. *)
Definition addBlock (x y z : Z) (s : settings) (st : adapter) : block * adapter :=
  let key := blockKey x y z in
  match blocks st !! key with
  | Some b => (b, st)
  | None =>
      let mesh := {| oid := next_oid st;
                     position := block_position blockSize x y z;
                     block_material := makeMaterial s |} in
      (mesh, {| attached := attached st ++ [mesh];
                blocks := <[key := mesh]> (blocks st);
                disposed := disposed st;
                assets := assets st;
                next_oid := S (next_oid st) |})
  end.

Definition removeBlock (x y z : Z) (st : adapter) : bool * adapter :=
  let key := blockKey x y z in
  match blocks st !! key with
  | None => (false, st)
  | Some m =>
      (true, {| attached := filter (λ o, oid o ≠ oid m) (attached st);
                blocks := delete key (blocks st);
                disposed := oid m :: disposed st;
                assets := assets st;
                next_oid := next_oid st |})
  end.
End adapter.
End Babylon.

Module Playcanvas.
Section adapter.
(** [opts.blockSize || 1], and the host: whether the texture asset ever
    becomes ready. *)
Variable blockSize : R.
Variable asset_ready : string → bool.

(** [None] as the block: the promise [addBlock] awaits never settles, and
    neither does the call. *)
Definition addBlock (x y z : Z) (s : settings) (st : adapter)
    : option block * adapter :=
  let key := blockKey x y z in
  match blocks st !! key with
  | Some b => (Some b, st)
  | None =>
      let ent mat := {| oid := next_oid st;
                        position := block_position blockSize x y z;
                        block_material := mat |} in
      let attach e st' :=
        (Some e, {| attached := attached st' ++ [e];
                    blocks := <[key := e]> (blocks st');
                    disposed := disposed st';
                    assets := assets st';
                    next_oid := next_oid st' |}) in
      match texture_given s with
      | Some url =>
          let st' := {| attached := attached st;
                        blocks := blocks st;
                        disposed := disposed st;
                        assets := assets st ++ ["tex-" +:+ key];
                        next_oid := S (next_oid st) |} in
          if asset_ready url then attach (ent (Textured url)) st'
          else (None, st')
      | None =>
          attach (ent (Diffuse (54 / 100) (27 / 100) (7 / 100)))
                 {| attached := attached st;
                    blocks := blocks st;
                    disposed := disposed st;
                    assets := assets st;
                    next_oid := S (next_oid st) |}
      end
  end.

Definition removeBlock (x y z : Z) (st : adapter) : bool * adapter :=
  let key := blockKey x y z in
  match blocks st !! key with
  | None => (false, st)
  | Some e =>
      (true, {| attached := filter (λ o, oid o ≠ oid e) (attached st);
                blocks := delete key (blocks st);
                disposed := oid e :: disposed st;
                assets := assets st;
                next_oid := next_oid st |})
  end.
End adapter.
End Playcanvas.

(** What the registry claims say of a [removeBlock]: it answers [true]
    exactly when the key of the coordinate is in the registry; it then takes
    that key, and no other, out of the registry; and when it answers [false]
    the adapter is unchanged. *)
Definition removes_exactly_when_present
    (removeBlock : Z → Z → Z → adapter → bool * adapter)
    (x y z : Z) (st : adapter) : Prop :=
  let key := blockKey x y z in
  let r := removeBlock x y z st in
  (r.1 = true ↔ is_Some (blocks st !! key)) ∧
  (r.1 = true → blocks r.2 = delete key (blocks st) ∧ blocks r.2 !! key = None) ∧
  (r.1 = false → r.2 = st).


From Stdlib Require Import Ascii.

(** ** Camera (camera.js) *)

Module Camera_.

Record Camera : Type := {
  projection : loc;
  position : loc;
  view : loc
}.

End Camera_.

(** ** The render loop of the three.js adapter (js3dhelper.js) *)

Module ThreeLoop.

(** The variable [raf] of [initThree], the frame callbacks the browser holds
    (by the handle [requestAnimationFrame] returned), the next handle it will
    give out, and the number of frames rendered. *)
Record loop_state : Type := {
  raf : option positive;
  scheduled : gset positive;
  next_handle : positive;
  rendered : nat
}.

Definition initial : loop_state :=
  {| raf := None; scheduled := ∅; next_handle := 1; rendered := 0 |}.

(** [raf = requestAnimationFrame(loop)]. *)
Definition request (st : loop_state) : loop_state :=
  {| raf := Some (next_handle st);
     scheduled := {[next_handle st]} ∪ scheduled st;
     next_handle := Pos.succ (next_handle st);
     rendered := rendered st |}.

Definition start (st : loop_state) : loop_state :=
  match raf st with
  | Some _ => st
  | None => request st
  end.

Definition stop (st : loop_state) : loop_state :=
  match raf st with
  | None => st
  | Some id =>
      {| raf := None; scheduled := scheduled st ∖ {[id]};
         next_handle := next_handle st; rendered := rendered st |}
  end.

(** The browser runs the frame callback with handle [id], if it still holds
    it: [loop] renders and requests the next frame.  [render] is taken to
    return. *)
Definition frame (id : positive) (st : loop_state) : loop_state :=
  if decide (id ∈ scheduled st) then
    request {| raf := raf st; scheduled := scheduled st ∖ {[id]};
               next_handle := next_handle st; rendered := S (rendered st) |}
  else st.

Inductive action : Type := Start | Stop | Frame (id : positive).

Definition act (a : action) (st : loop_state) : loop_state :=
  match a with
  | Start => start st
  | Stop => stop st
  | Frame id => frame id st
  end.

Definition run (actions : list action) : loop_state :=
  foldl (λ st a, act a st) initial actions.

End ThreeLoop.

(** ** [addBlock] of the three.js adapter, with its [await] *)

Module ThreeAsync.
Section adapter.
Variable blockSize : R.
Variable texture_loads : string → bool.

(** The part of [addBlock] before [await makeMaterial(settings)]: [Some b]
    is the early [return] of the registered block, [None] the suspension. *)
Definition before_await (x y z : Z) (st : adapter) : option block :=
  blocks st !! blockKey x y z.

(** The part after the [await], run on the adapter as it is by then: it does
    not look at the registry again. *)
Definition after_await (x y z : Z) (s : settings) (st : adapter) : block * adapter :=
  let key := blockKey x y z in
  let mat := Three.makeMaterial texture_loads s in
  let mesh := {| oid := next_oid st;
                 position := block_position blockSize x y z;
                 block_material := mat |} in
  (mesh, {| attached := attached st ++ [mesh];
            blocks := <[key := mesh]> (blocks st);
            disposed := disposed st;
            assets := assets st;
            next_oid := S (next_oid st) |}).
End adapter.
End ThreeAsync.

(** What the adapters keep true of their shared state: every registered
    block is attached to the scene, every attached object is older than the
    next object identity, and two keys never name the same object. *)
Definition registry_ok (st : adapter) : Prop :=
  (∀ k b, blocks st !! k = Some b → b ∈ attached st) ∧
  (∀ b, b ∈ attached st → (oid b < next_oid st)%nat) ∧
  (∀ k k' b b', blocks st !! k = Some b → blocks st !! k' = Some b' →
                oid b = oid b' → k = k').

(** A string without a comma. *)
Fixpoint comma_free (s : string) : Prop :=
  match s with
  | EmptyString => True
  | String c s' => c ≠ ","%char ∧ comma_free s'
  end.

(** ** WebGL: shader.js, the GL side of mesh.js, and renderer.js *)

Inductive shader_type : Type := VERTEX_SHADER | FRAGMENT_SHADER.

(** The calls made on the WebGL context, with the arguments that vary.
    Queries ([getShaderParameter], [getAttribLocation], ...) are not
    recorded. *)
Inductive gl_call : Type :=
| gl_clearColor (r g b a : R)
| gl_enable_DEPTH_TEST
| gl_clear_COLOR_DEPTH
| gl_createShader (type : shader_type) (shader : nat)
| gl_shaderSource (shader : nat) (src : string)
| gl_compileShader (shader : nat)
| gl_createProgram (program : nat)
| gl_attachShader (program shader : nat)
| gl_linkProgram (program : nat)
| gl_createBuffer (buffer : nat)
| gl_bindBuffer_ARRAY (buffer : nat)
| gl_bindBuffer_ELEMENT_ARRAY (buffer : option nat)
| gl_bufferData_ARRAY (data : list R)
| gl_bufferData_ELEMENT_ARRAY (data : list N)
| gl_useProgram (program : nat)
| gl_uniformMatrix4fv (location : option nat) (value : list R)
| gl_uniform4fv (location : nat) (value : list R)
| gl_uniform3fv (location : nat) (value : list R)
| gl_uniform2fv (location : nat) (value : list R)
| gl_uniform1f (location : nat) (value : list R + R)
| gl_enableVertexAttribArray (index : nat)
| gl_vertexAttribPointer (index size strideBytes offset : nat)
| gl_drawElements_TRIANGLES (count : nat)
| gl_drawArrays_TRIANGLES (count : R).

(** The context: the calls so far (oldest first), the next object name, and
    what the shader and program objects hold. *)
Record gl_context : Type := {
  gl_calls : list gl_call;
  gl_next : nat;
  gl_shaders : gmap nat (shader_type * string);
  gl_programs : gmap nat (list nat)
}.

(** A run on the context: a value or a thrown error, and the context after. *)
Definition G (A : Type) : Type := gl_context → (A + js_error) * gl_context.

#[global] Instance G_ret : MRet G := λ A a g, (inl a, g).
#[global] Instance G_bind : MBind G := λ A B f m g,
  match m g with
  | (inl a, g') => f a g'
  | (inr e, g') => (inr e, g')
  end.

Definition g_throw {A} (e : js_error) : G A := λ g, (inr e, g).

Definition gl_do (c : gl_call) : G unit := λ g,
  (inl (), {| gl_calls := gl_calls g ++ [c]; gl_next := gl_next g;
              gl_shaders := gl_shaders g; gl_programs := gl_programs g |}).

(** A new object name. *)
Definition gl_gen : G nat := λ g,
  (inl (gl_next g), {| gl_calls := gl_calls g; gl_next := S (gl_next g);
                       gl_shaders := gl_shaders g; gl_programs := gl_programs g |}).

Definition gl_set_shader (shader : nat) (type : shader_type) (src : string) : G unit := λ g,
  (inl (), {| gl_calls := gl_calls g; gl_next := gl_next g;
              gl_shaders := <[shader := (type, src)]> (gl_shaders g);
              gl_programs := gl_programs g |}).

Definition gl_set_program (program : nat) (shaders : list nat) : G unit := λ g,
  (inl (), {| gl_calls := gl_calls g; gl_next := gl_next g;
              gl_shaders := gl_shaders g;
              gl_programs := <[program := shaders]> (gl_programs g) |}).

Module GL.
Section driver.
(** The driver: whether a source compiles as a shader of a type and the log
    it leaves, whether shaders link and the log that leaves, and where a
    linked program has an attribute (-1: nowhere) or a uniform. *)
Variable compiles : shader_type → string → bool.
Variable shader_log : shader_type → string → string.
Variable links : list (shader_type * string) → bool.
Variable program_log : list (shader_type * string) → string.
Variable attrib_location : nat → string → Z.
Variable uniform_location : nat → string → option nat.

Definition createShader (type : shader_type) : G nat :=
  shader ← gl_gen;
  gl_do (gl_createShader type shader);;
  gl_set_shader shader type "";;
  mret shader.

Definition shaderSource (shader : nat) (src : string) : G unit := λ g,
  match gl_shaders g !! shader with
  | Some (type, _) => (gl_do (gl_shaderSource shader src);; gl_set_shader shader type src) g
  | None => gl_do (gl_shaderSource shader src) g
  end.

(** [gl.getShaderParameter(shader, gl.COMPILE_STATUS)]. *)
Definition COMPILE_STATUS (shader : nat) : G bool := λ g,
  (inl (match gl_shaders g !! shader with
        | Some (type, src) => compiles type src
        | None => false
        end), g).

Definition getShaderInfoLog (shader : nat) : G string := λ g,
  (inl (match gl_shaders g !! shader with
        | Some (type, src) => shader_log type src
        | None => ""
        end), g).

Definition createProgram : G nat :=
  program ← gl_gen;
  gl_do (gl_createProgram program);;
  gl_set_program program [];;
  mret program.

Definition attachShader (program shader : nat) : G unit := λ g,
  (gl_do (gl_attachShader program shader);;
   gl_set_program program (default [] (gl_programs g !! program) ++ [shader])) g.

Definition attached_sources (program : nat) (g : gl_context) : list (shader_type * string) :=
  omap (λ shader, gl_shaders g !! shader) (default [] (gl_programs g !! program)).

(** [gl.getProgramParameter(program, gl.LINK_STATUS)]. *)
Definition LINK_STATUS (program : nat) : G bool := λ g,
  (inl (links (attached_sources program g)), g).

Definition getProgramInfoLog (program : nat) : G string := λ g,
  (inl (program_log (attached_sources program g)), g).

Definition createBuffer : G nat :=
  buffer ← gl_gen;
  gl_do (gl_createBuffer buffer);;
  mret buffer.
End driver.
End GL.

Record gl_driver : Type := {
  compiles : shader_type → string → bool;
  shader_log : shader_type → string → string;
  links : list (shader_type * string) → bool;
  program_log : list (shader_type * string) → string;
  attrib_location : nat → string → Z;
  uniform_location : nat → string → option nat
}.

(** shader.js *)
Module shader.
Section driver.
Variable d : gl_driver.

Definition createShader (type : shader_type) (src : string) : G nat :=
  shader ← GL.createShader type;
  GL.shaderSource shader src;;
  gl_do (gl_compileShader shader);;

  ok ← GL.COMPILE_STATUS (compiles d) shader;
  if negb ok then
    log ← GL.getShaderInfoLog (shader_log d) shader;
    g_throw (Error ("Shader compile error: " +:+ log))
  else
    mret shader.

Definition createShaderProgram (vertexSrc fragmentSrc : string) : G nat :=
  vertex ← createShader VERTEX_SHADER vertexSrc;
  fragment ← createShader FRAGMENT_SHADER fragmentSrc;

  program ← GL.createProgram;
  GL.attachShader program vertex;;
  GL.attachShader program fragment;;
  gl_do (gl_linkProgram program);;

  ok ← GL.LINK_STATUS (links d) program;
  if negb ok then
    log ← GL.getProgramInfoLog (program_log d) program;
    g_throw (Error ("Shader link error: " +:+ log))
  else
    mret program.
End driver.
End shader.

(** The GL side of a [Mesh] (mesh.js): the fields that [init],
    [enableAttributes], [setUniform] and [draw] use.  The two location
    tables always have the keys [init] gives them. *)
Record attribute_table : Type := {
  aPosition : option nat;
  aNormal : option nat;
  aUV : option nat
}.

Record uniform_table : Type := {
  uProjection : option nat;
  uView : option nat;
  uModel : option nat;
  uColor : option nat;
  uTexture : option nat
}.

Record MeshGL : Type := {
  vertices : list R;
  indices : option (list N);
  stride : nat;
  program : nat;
  vbo : nat;
  ibo : option nat;
  attributeLocations : attribute_table;
  uniformLocations : uniform_table
}.

Module MeshGL_.
Section driver.
Variable d : gl_driver.

(** [loc >= 0 ? loc : null]. *)
Definition location_or_null (loc : Z) : option nat :=
  if decide (0 ≤ loc)%Z then Some (Z.to_nat loc) else None.

(** [new Uint16Array(indices)] keeps each index modulo 65536. *)
Definition Uint16Array (l : list N) : list N := (λ i, i mod 65536)%N <$> l.

(** The constructor as far as the context is concerned: [data.stride || 8],
    the shader program, and [init()]. *)
Definition constructor (data_vertices : list R) (data_indices : option (list N))
    (data_stride : option nat) (vertexSrc fragmentSrc : string) : G MeshGL :=
  let stride := match data_stride with
                | Some n => if decide (n = 0%nat) then 8%nat else n
                | None => 8%nat
                end in
  program ← shader.createShaderProgram d vertexSrc fragmentSrc;

  vbo ← GL.createBuffer;
  gl_do (gl_bindBuffer_ARRAY vbo);;
  gl_do (gl_bufferData_ARRAY data_vertices);;

  ibo ← match data_indices with
        | Some l =>
            ibo ← GL.createBuffer;
            gl_do (gl_bindBuffer_ELEMENT_ARRAY (Some ibo));;
            gl_do (gl_bufferData_ELEMENT_ARRAY (Uint16Array l));;
            mret (Some ibo)
        | None => mret None
        end;

  let attrib name := location_or_null (attrib_location d program name) in
  let uniform name := uniform_location d program name in
  mret {| vertices := data_vertices; indices := data_indices; stride := stride;
          program := program; vbo := vbo; ibo := ibo;
          attributeLocations :=
            {| aPosition := attrib "aPosition"; aNormal := attrib "aNormal";
               aUV := attrib "aUV" |};
          uniformLocations :=
            {| uProjection := uniform "uProjection"; uView := uniform "uView";
               uModel := uniform "uModel"; uColor := uniform "uColor";
               uTexture := uniform "uTexture" |} |}.
End driver.

Definition attribute (index : option nat) (size strideBytes offset : nat) : G unit :=
  match index with
  | Some i =>
      gl_do (gl_enableVertexAttribArray i);;
      gl_do (gl_vertexAttribPointer i size strideBytes offset)
  | None => mret ()
  end.

Definition enableAttributes (this : MeshGL) : G unit :=
  gl_do (gl_bindBuffer_ARRAY (vbo this));;

  let strideBytes := (stride this * 4)%nat in

  attribute (aPosition (attributeLocations this)) 3 strideBytes 0;;
  attribute (aNormal (attributeLocations this)) 3 strideBytes (3 * 4);;
  attribute (aUV (attributeLocations this)) 2 strideBytes (6 * 4).

(** [this.uniformLocations[name]]; any other name is [undefined]. *)
Definition uniform_by_name (t : uniform_table) (name : string) : option nat :=
  if decide (name = "uProjection") then uProjection t
  else if decide (name = "uView") then uView t
  else if decide (name = "uModel") then uModel t
  else if decide (name = "uColor") then uColor t
  else if decide (name = "uTexture") then uTexture t
  else None.

(** [value] is an array or a number; a number has no [length]. *)
Definition setUniform (this : MeshGL) (name : string) (value : list R + R) : G unit :=
  match uniform_by_name (uniformLocations this) name with
  | None => mret ()
  | Some loc =>
      match value with
      | inl l =>
          if decide (length l = 16%nat) then gl_do (gl_uniformMatrix4fv (Some loc) l)
          else if decide (length l = 4%nat) then gl_do (gl_uniform4fv loc l)
          else if decide (length l = 3%nat) then gl_do (gl_uniform3fv loc l)
          else if decide (length l = 2%nat) then gl_do (gl_uniform2fv loc l)
          else gl_do (gl_uniform1f loc value)
      | inr _ => gl_do (gl_uniform1f loc value)
      end
  end.

(** [draw(camera)]; the three matrices are read from the heap, and a [null]
    camera has no [projection] to read. *)
Definition draw (this : Mesh) (gl_side : MeshGL) (camera : option Camera_.Camera)
    (h : heap) : G unit :=
  gl_do (gl_useProgram (program gl_side));;

  match camera with
  | None =>
      g_throw (TypeError "Cannot read properties of null (reading 'projection')")
  | Some camera =>
      let matrix l := default [] (h !! l) in
      gl_do (gl_uniformMatrix4fv (uProjection (uniformLocations gl_side))
                                 (matrix (Camera_.projection camera)));;
      gl_do (gl_uniformMatrix4fv (uView (uniformLocations gl_side))
                                 (matrix (Camera_.view camera)));;
      gl_do (gl_uniformMatrix4fv (uModel (uniformLocations gl_side))
                                 (matrix (model this)));;

      enableAttributes gl_side;;

      match indices gl_side with
      | Some l =>
          gl_do (gl_bindBuffer_ELEMENT_ARRAY (ibo gl_side));;
          gl_do (gl_drawElements_TRIANGLES (length l))
      | None =>
          gl_do (gl_drawArrays_TRIANGLES (INR (length (vertices gl_side)) / INR (stride gl_side)))
      end
  end.
End MeshGL_.

(** renderer.js *)
Record WebGL3D : Type := {
  meshes : list (Mesh * MeshGL);
  camera : option Camera_.Camera;
  background : list R
}.

(** How a frame ends: the heap and the context after it, and the error when
    one was thrown.  [Frame_undef] is a run that left the model. *)
Inductive frame_outcome : Type :=
| Frame_ok (h : heap) (g : gl_context)
| Frame_throw (e : js_error) (h : heap) (g : gl_context)
| Frame_undef.

Module WebGL3D_.

(** [canvas.getContext("webgl")] gave [context] ([None]: [null]). *)
Definition constructor (context : option gl_context) : (WebGL3D + js_error) * option gl_context :=
  match context with
  | None => (inr (Error "WebGL not supported"), None)
  | Some g =>
      let this := {| meshes := []; camera := None;
                     background := [1 / 10; 1 / 10; 1 / 10; 1] |} in
      (* initGL *)
      let g1 := (gl_do (gl_clearColor (1 / 10) (1 / 10) (1 / 10) 1) g).2 in
      let g2 := (gl_do gl_enable_DEPTH_TEST g1).2 in
      (inl this, Some g2)
  end.

Definition setCamera (this : WebGL3D) (camera : Camera_.Camera) : WebGL3D :=
  {| meshes := meshes this; camera := Some camera; background := background this |}.

Definition addMesh (this : WebGL3D) (mesh : Mesh * MeshGL) : WebGL3D :=
  {| meshes := meshes this ++ [mesh]; camera := camera this;
     background := background this |}.

(** [for (let mesh of this.meshes) { mesh.update(); mesh.draw(this.camera); }] *)
Fixpoint for_meshes (camera : option Camera_.Camera) (l : list (Mesh * MeshGL))
    (h : heap) (g : gl_context) : frame_outcome :=
  match l with
  | [] => Frame_ok h g
  | (mesh, gl_side) :: rest =>
      match Mesh_.update mesh h with
      | Ret _ h' =>
          match MeshGL_.draw mesh gl_side camera h' g with
          | (inl _, g') => for_meshes camera rest h' g'
          | (inr e, g') => Frame_throw e h' g'
          end
      | Throw e h' => Frame_throw e h' g
      | Undef => Frame_undef
      end
  end.

Definition render (this : WebGL3D) (h : heap) (g : gl_context) : frame_outcome :=
  for_meshes (camera this) (meshes this) h (gl_do gl_clear_COLOR_DEPTH g).2.

(** [start()] up to its return: one run of [loop]; the boolean tells whether
    [requestAnimationFrame(loop)] was reached. *)
Definition start (this : WebGL3D) (h : heap) (g : gl_context) : frame_outcome * bool :=
  match render this h g with
  | Frame_ok h' g' => (Frame_ok h' g', true)
  | other => (other, false)
  end.

End WebGL3D_.

(** Calls that draw, and calls that enable a vertex attribute. *)
Definition is_draw_call (c : gl_call) : bool :=
  match c with
  | gl_drawElements_TRIANGLES _ | gl_drawArrays_TRIANGLES _ => true
  | _ => false
  end.

Definition enabled_attribute (c : gl_call) : option nat :=
  match c with
  | gl_enableVertexAttribArray i => Some i
  | _ => None
  end.

(** The calls [enableAttributes] makes for one attribute. *)
Definition attribute_calls (index : option nat) (size strideBytes offset : nat)
    : list gl_call :=
  match index with
  | Some i => [gl_enableVertexAttribArray i; gl_vertexAttribPointer i size strideBytes offset]
  | None => []
  end.

(** The context after some more calls. *)
Definition gl_append (g : gl_context) (calls : list gl_call) : gl_context :=
  {| gl_calls := gl_calls g ++ calls; gl_next := gl_next g;
     gl_shaders := gl_shaders g; gl_programs := gl_programs g |}.


From Stdlib Require Import ZArith SpecFloat.

(** * The matrix routines in IEEE 754 arithmetic

    The routines of [mat4] whose results depend on rounding, once more, on
    the numbers JavaScript has: binary64 values ([spec_float] at precision 53,
    with signed zeros, the infinities and [NaN]), every operation rounded to
    nearest, ties to even, and every write into a [Float32Array] rounded to
    binary32 ([Math.fround]).  Nothing is undefined here: a division by zero
    gives an infinity or [NaN], and [undefined], read past the end of an
    array and used as a number, is [NaN]. *)

Module IEEE.

Abbreviation number := spec_float (only parsing).

Definition NaN : number := S754_nan.
Definition Infinity : number := S754_infinity false.

(** An integer literal: the nearest binary64 number. *)
Definition of_Z (z : Z) : number := binary_normalize 53 1024 z 0 false.

Definition add : number → number → number := SFadd 53 1024.
Definition sub : number → number → number := SFsub 53 1024.
Definition mul : number → number → number := SFmul 53 1024.
Definition div : number → number → number := SFdiv 53 1024.
Definition neg : number → number := SFopp.

Declare Scope js_scope.
Delimit Scope js_scope with js.
Bind Scope js_scope with spec_float.
Notation "x + y" := (add x y) : js_scope.
Notation "x - y" := (sub x y) : js_scope.
Notation "x * y" := (mul x y) : js_scope.
Notation "x / y" := (div x y) : js_scope.
Notation "- x" := (neg x) : js_scope.

(** [Math.fround]: the nearest binary32 number, as a binary64 number again
    (every binary32 number is one). *)
Definition Math_fround (x : number) : number :=
  match x with
  | S754_finite s m e =>
      match binary_round 24 128 s m e with
      | S754_finite s' m' e' => binary_round 53 1024 s' m' e'
      | y => y
      end
  | _ => x
  end.

(** [!x] on a number: [0], [-0] and [NaN] are falsy. *)
Definition falsy (x : number) : bool :=
  match x with
  | S754_zero _ | S754_nan => true
  | _ => false
  end.

(** [x === 0]. *)
Definition is_zero (x : number) : bool :=
  match x with
  | S754_zero _ => true
  | _ => false
  end.

Definition is_NaN (x : number) : bool :=
  match x with
  | S754_nan => true
  | _ => false
  end.

Definition is_infinite (x : number) : bool :=
  match x with
  | S754_infinity _ => true
  | _ => false
  end.

(** [Number.isFinite]. *)
Definition is_finite (x : number) : bool :=
  match x with
  | S754_zero _ | S754_finite _ _ _ => true
  | _ => false
  end.

(** A number JavaScript can hold: a finite one is in the canonical binary64
    form. *)
Definition binary64 (x : number) : bool := valid_binary 53 1024 x.

#[global] Instance spec_float_eq_dec : EqDecision spec_float.
Proof. solve_decision. Defined.

(** A number a [Float32Array] can hold. *)
Definition binary32 (x : number) : bool :=
  binary64 x && bool_decide (Math_fround x = x).

(** ** Float32Array objects *)

Abbreviation heap := (gmap positive (list spec_float)) (only parsing).

(** A run: [None] when an argument is not a [Float32Array] of the heap. *)
Definition M (A : Type) : Type := heap → option (A * heap).

#[global] Instance M_ret : MRet M := λ A a h, Some (a, h).
#[global] Instance M_bind : MBind M := λ A B f m h,
  match m h with
  | Some (a, h') => f a h'
  | None => None
  end.

(** [a[i]] used as a number: [undefined], past the end, becomes [NaN]. *)
Definition load (a : loc) (i : nat) : M number := λ h,
  match h !! a with
  | Some m => Some (default NaN (m !! i), h)
  | None => None
  end.

(** [out[i] = v]: the value is rounded to binary32; a write past the end is
    ignored. *)
Definition store (out : loc) (i : nat) (v : number) : M unit := λ h,
  match h !! out with
  | Some m => Some ((), <[out := <[i := Math_fround v]> m]> h)
  | None => None
  end.

(** [new Float32Array(16)]. *)
Definition alloc (m : list number) : M loc := λ h,
  let l := fresh (dom h) in Some (l, <[l := m]> h).

(** [v[i]] of an array argument that is only read. *)
Definition item (v : list number) (i : nat) : number := default NaN (v !! i).

(** The host's [Math.tan] and [Math.hypot] on the arguments for which
    ECMAScript leaves the result to the implementation (an approximation). *)
Record Math : Type := {
  tan_approx : spec_float → spec_float;
  hypot_approx : spec_float → spec_float → spec_float → spec_float
}.

(** [Math.tan(x)]: [NaN] for [NaN] and the infinities, the zero itself for a
    zero. *)
Definition Math_tan (host : Math) (x : number) : number :=
  match x with
  | S754_nan | S754_infinity _ => NaN
  | S754_zero _ => x
  | S754_finite _ _ _ => tan_approx host x
  end.

(** [Math.hypot(x, y, z)]: [Infinity] when an argument is infinite, else
    [NaN] when one is [NaN], [+0] when all are zeros. *)
Definition Math_hypot (host : Math) (x y z : number) : number :=
  if is_infinite x || is_infinite y || is_infinite z then Infinity
  else if is_NaN x || is_NaN y || is_NaN z then NaN
  else if is_zero x && is_zero y && is_zero z then of_Z 0
  else hypot_approx host x y z.

Module mat4.
Section host.
Variable host : Math.
Local Open Scope js_scope.

Definition create : M loc :=
  out ← alloc (replicate 16 (of_Z 0));
  store out 15 (of_Z 1);; store out 10 (of_Z 1);; store out 5 (of_Z 1);; store out 0 (of_Z 1);;
  mret out.

Definition perspective (out : loc) (fov aspect near far : number) : M loc :=
  let f := of_Z 1 / Math_tan host (fov / of_Z 2) in
  let nf := of_Z 1 / (near - far) in

  store out 0 (f / aspect);;
  store out 1 (of_Z 0);;
  store out 2 (of_Z 0);;
  store out 3 (of_Z 0);;

  store out 4 (of_Z 0);;
  store out 5 f;;
  store out 6 (of_Z 0);;
  store out 7 (of_Z 0);;

  store out 8 (of_Z 0);;
  store out 9 (of_Z 0);;
  store out 10 ((far + near) * nf);;
  store out 11 (- of_Z 1);;

  store out 12 (of_Z 0);;
  store out 13 (of_Z 0);;
  store out 14 ((of_Z 2 * far * near) * nf);;
  store out 15 (of_Z 0);;

  mret out.

Definition multiply (out a b : loc) : M loc :=
  a00 ← load a 0; a01 ← load a 1; a02 ← load a 2; a03 ← load a 3;
  a10 ← load a 4; a11 ← load a 5; a12 ← load a 6; a13 ← load a 7;
  a20 ← load a 8; a21 ← load a 9; a22 ← load a 10; a23 ← load a 11;
  a30 ← load a 12; a31 ← load a 13; a32 ← load a 14; a33 ← load a 15;

  b00 ← load b 0; b01 ← load b 1; b02 ← load b 2; b03 ← load b 3;
  b10 ← load b 4; b11 ← load b 5; b12 ← load b 6; b13 ← load b 7;
  b20 ← load b 8; b21 ← load b 9; b22 ← load b 10; b23 ← load b 11;
  b30 ← load b 12; b31 ← load b 13; b32 ← load b 14; b33 ← load b 15;

  store out 0 (a00*b00 + a01*b10 + a02*b20 + a03*b30);;
  store out 1 (a00*b01 + a01*b11 + a02*b21 + a03*b31);;
  store out 2 (a00*b02 + a01*b12 + a02*b22 + a03*b32);;
  store out 3 (a00*b03 + a01*b13 + a02*b23 + a03*b33);;

  store out 4 (a10*b00 + a11*b10 + a12*b20 + a13*b30);;
  store out 5 (a10*b01 + a11*b11 + a12*b21 + a13*b31);;
  store out 6 (a10*b02 + a11*b12 + a12*b22 + a13*b32);;
  store out 7 (a10*b03 + a11*b13 + a12*b23 + a13*b33);;

  store out 8 (a20*b00 + a21*b10 + a22*b20 + a23*b30);;
  store out 9 (a20*b01 + a21*b11 + a22*b21 + a23*b31);;
  store out 10 (a20*b02 + a21*b12 + a22*b22 + a23*b32);;
  store out 11 (a20*b03 + a21*b13 + a22*b23 + a23*b33);;

  store out 12 (a30*b00 + a31*b10 + a32*b20 + a33*b30);;
  store out 13 (a30*b01 + a31*b11 + a32*b21 + a33*b31);;
  store out 14 (a30*b02 + a31*b12 + a32*b22 + a33*b32);;
  store out 15 (a30*b03 + a31*b13 + a32*b23 + a33*b33);;

  mret out.

Definition scale (out a : loc) (v : list number) : M loc :=
  let x := item v 0 in let y := item v 1 in let z := item v 2 in

  a0 ← load a 0; store out 0 (a0 * x);;
  a1 ← load a 1; store out 1 (a1 * x);;
  a2 ← load a 2; store out 2 (a2 * x);;
  a3 ← load a 3; store out 3 (a3 * x);;

  a4 ← load a 4; store out 4 (a4 * y);;
  a5 ← load a 5; store out 5 (a5 * y);;
  a6 ← load a 6; store out 6 (a6 * y);;
  a7 ← load a 7; store out 7 (a7 * y);;

  a8 ← load a 8; store out 8 (a8 * z);;
  a9 ← load a 9; store out 9 (a9 * z);;
  a10 ← load a 10; store out 10 (a10 * z);;
  a11 ← load a 11; store out 11 (a11 * z);;

  mret out.

(** The determinant as [invert] computes it, from the twelve 2x2 minors of
    the rows 0, 1 and 2, 3. *)
Definition invert_det (m : list number) : number :=
  let a00 := item m 0 in let a01 := item m 1 in
  let a02 := item m 2 in let a03 := item m 3 in
  let a10 := item m 4 in let a11 := item m 5 in
  let a12 := item m 6 in let a13 := item m 7 in
  let a20 := item m 8 in let a21 := item m 9 in
  let a22 := item m 10 in let a23 := item m 11 in
  let a30 := item m 12 in let a31 := item m 13 in
  let a32 := item m 14 in let a33 := item m 15 in

  let b00 := a00 * a11 - a01 * a10 in
  let b01 := a00 * a12 - a02 * a10 in
  let b02 := a00 * a13 - a03 * a10 in
  let b03 := a01 * a12 - a02 * a11 in
  let b04 := a01 * a13 - a03 * a11 in
  let b05 := a02 * a13 - a03 * a12 in
  let b06 := a20 * a31 - a21 * a30 in
  let b07 := a20 * a32 - a22 * a30 in
  let b08 := a20 * a33 - a23 * a30 in
  let b09 := a21 * a32 - a22 * a31 in
  let b10 := a21 * a33 - a23 * a31 in
  let b11 := a22 * a33 - a23 * a32 in

  b00 * b11 - b01 * b10 + b02 * b09 +
  b03 * b08 - b04 * b07 + b05 * b06.

Definition invert (out a : loc) : M (option loc) :=
  a00 ← load a 0; a01 ← load a 1; a02 ← load a 2; a03 ← load a 3;
  a10 ← load a 4; a11 ← load a 5; a12 ← load a 6; a13 ← load a 7;
  a20 ← load a 8; a21 ← load a 9; a22 ← load a 10; a23 ← load a 11;
  a30 ← load a 12; a31 ← load a 13; a32 ← load a 14; a33 ← load a 15;

  let b00 := a00 * a11 - a01 * a10 in
  let b01 := a00 * a12 - a02 * a10 in
  let b02 := a00 * a13 - a03 * a10 in
  let b03 := a01 * a12 - a02 * a11 in
  let b04 := a01 * a13 - a03 * a11 in
  let b05 := a02 * a13 - a03 * a12 in
  let b06 := a20 * a31 - a21 * a30 in
  let b07 := a20 * a32 - a22 * a30 in
  let b08 := a20 * a33 - a23 * a30 in
  let b09 := a21 * a32 - a22 * a31 in
  let b10 := a21 * a33 - a23 * a31 in
  let b11 := a22 * a33 - a23 * a32 in

  let det :=
    b00 * b11 - b01 * b10 + b02 * b09 +
    b03 * b08 - b04 * b07 + b05 * b06 in

  if falsy det then mret None else

  let invDet := of_Z 1 / det in

  store out 0 (( a11*b11 - a12*b10 + a13*b09) * invDet);;
  store out 1 (((-a01)*b11 + a02*b10 - a03*b09) * invDet);;
  store out 2 (( a31*b05 - a32*b04 + a33*b03) * invDet);;
  store out 3 (((-a21)*b05 + a22*b04 - a23*b03) * invDet);;

  store out 4 (((-a10)*b11 + a12*b08 - a13*b07) * invDet);;
  store out 5 (( a00*b11 - a02*b08 + a03*b07) * invDet);;
  store out 6 (((-a30)*b05 + a32*b02 - a33*b01) * invDet);;
  store out 7 (( a20*b05 - a22*b02 + a23*b01) * invDet);;

  store out 8 (( a10*b10 - a11*b08 + a13*b06) * invDet);;
  store out 9 (((-a00)*b10 + a01*b08 - a03*b06) * invDet);;
  store out 10 (( a30*b04 - a31*b02 + a33*b00) * invDet);;
  store out 11 (((-a20)*b04 + a21*b02 - a23*b00) * invDet);;

  store out 12 (((-a10)*b09 + a11*b07 - a12*b06) * invDet);;
  store out 13 (( a00*b09 - a01*b07 + a02*b06) * invDet);;
  store out 14 (((-a30)*b03 + a31*b01 - a32*b00) * invDet);;
  store out 15 (( a20*b03 - a21*b01 + a22*b00) * invDet);;

  mret (Some out).

Definition lookAt (out : loc) (eye center up : list number) : M loc :=
  let eyex := item eye 0 in let eyey := item eye 1 in let eyez := item eye 2 in
  let upx := item up 0 in let upy := item up 1 in let upz := item up 2 in
  let centerx := item center 0 in let centery := item center 1 in
  let centerz := item center 2 in

  let z0 := eyex - centerx in
  let z1 := eyey - centery in
  let z2 := eyez - centerz in

  let len := Math_hypot host z0 z1 z2 in
  let '(z0, z1, z2) :=
    if is_zero len then (z0, z1, of_Z 1)
    else (z0 / len, z1 / len, z2 / len) in

  let x0 := upy * z2 - upz * z1 in
  let x1 := upz * z0 - upx * z2 in
  let x2 := upx * z1 - upy * z0 in
  let len := Math_hypot host x0 x1 x2 in
  let '(x0, x1, x2) :=
    if is_zero len then (of_Z 1, x1, x2)
    else (x0 / len, x1 / len, x2 / len) in

  let y0 := z1 * x2 - z2 * x1 in
  let y1 := z2 * x0 - z0 * x2 in
  let y2 := z0 * x1 - z1 * x0 in

  store out 0 x0;;
  store out 1 y0;;
  store out 2 z0;;
  store out 3 (of_Z 0);;

  store out 4 x1;;
  store out 5 y1;;
  store out 6 z1;;
  store out 7 (of_Z 0);;

  store out 8 x2;;
  store out 9 y2;;
  store out 10 z2;;
  store out 11 (of_Z 0);;

  store out 12 (- (x0 * eyex + x1 * eyey + x2 * eyez));;
  store out 13 (- (y0 * eyex + y1 * eyey + y2 * eyez));;
  store out 14 (- (z0 * eyex + z1 * eyey + z2 * eyez));;
  store out 15 (of_Z 1);;

  mret out.

End host.
End mat4.

(** camera.js: the constructor; [position] is a plain array. *)
Record Camera : Type := {
  projection : loc;
  position : list spec_float;
  view : loc
}.

Definition Camera_constructor (host : Math) (fov aspect near far : number) : M Camera :=
  projection ← mat4.create;
  mat4.perspective host projection fov aspect near far;;
  view ← mat4.create;
  mret {| projection := projection; position := [of_Z 0; of_Z 0; of_Z 5]; view := view |}.

(** ** What the numbers stand for *)

(** The real number a finite number stands for ([0] for the others). *)
Definition to_R (x : number) : R :=
  match x with
  | S754_finite s m e =>
      let z := if s then Z.neg m else Z.pos m in
      if (0 <=? e)%Z then IZR (z * 2 ^ e) else (IZR z / IZR (2 ^ (- e)))%R
  | _ => 0%R
  end.

(** [x === y] on numbers: [NaN] equals nothing, and the two zeros are
    equal. *)
Definition strict_eq (x y : number) : bool := SFeqb x y.

(** A host for the examples: [Math.hypot] as the rounded square root of the
    rounded sum of the squares, [Math.tan] as two terms of its series. *)
Definition example_host : Math := {|
  tan_approx := λ x, (x + x * x * x / of_Z 3)%js;
  hypot_approx := λ x y z, SFsqrt 53 1024 (x * x + y * y + z * z)%js
|}.

(** A heap of two [Float32Array]s: a zeroed [out] at 1 and [m] at 2. *)
Definition out_and (m : list number) : heap :=
  {[ 1%positive := replicate 16 (of_Z 0); 2%positive := m ]}.

End IEEE.

(** The number 1 as a binary64 value. *)
Abbreviation float_one := (S754_finite false 4503599627370496 (-52)).

(** The translation by [(x, y, z)] as a [Float32Array]. *)
Abbreviation translation x y z :=
  [IEEE.of_Z 1; IEEE.of_Z 0; IEEE.of_Z 0; IEEE.of_Z 0;
   IEEE.of_Z 0; IEEE.of_Z 1; IEEE.of_Z 0; IEEE.of_Z 0;
   IEEE.of_Z 0; IEEE.of_Z 0; IEEE.of_Z 1; IEEE.of_Z 0;
   x; y; z; IEEE.of_Z 1].

(** Two arrays hold the same numbers, entry by entry [===]: a zero of either
    sign for a zero, and no [NaN]. *)
Abbreviation same_numbers := (Forall2 (λ p q : spec_float, IEEE.strict_eq p q = true)).

(** ** Running the monad step by step *)

Section steps.
Context {B : Type}.
Implicit Types (h : heap) (m : list R).

Lemma run_ret {A} (x : A) (k : A → M B) h : (mret x ≫= k) h = k x h.
Proof. reflexivity. Qed.

Lemma run_load (a : loc) (i : nat) m x (k : R → M B) h :
  h !! a = Some m → m !! i = Some x → (load a i ≫= k) h = k x h.
Proof.
  intros Ha Hi. unfold mbind, M_bind, load. by rewrite Ha, Hi.
Qed.

Lemma run_store (out : loc) (i : nat) (v : R) m (k : unit → M B) h :
  h !! out = Some m → (store out i v ≫= k) h = k () (<[out := <[i := v]> m]> h).
Proof.
  intros Ho. unfold mbind, M_bind, store. by rewrite Ho.
Qed.

Lemma run_div (x y : R) (k : R → M B) h :
  y ≠ 0 → (div x y ≫= k) h = k (x / y) h.
Proof.
  intros Hy. unfold mbind, M_bind, div. by destruct (decide (y = 0)).
Qed.

Lemma run_div_zero (x : R) (k : R → M B) h : (div x 0 ≫= k) h = Undef.
Proof.
  unfold mbind, M_bind, div. by destruct (decide (0 = 0)).
Qed.

Lemma run_tan (x : R) (k : R → M B) h :
  cos x ≠ 0 → (Math_tan x ≫= k) h = k (tan x) h.
Proof.
  intros Hx. unfold mbind, M_bind, Math_tan. by destruct (decide (cos x = 0)).
Qed.
End steps.

Lemma insert_twice (h : heap) (l : loc) (m1 m2 : list R) :
  <[l := m2]> (<[l := m1]> h) = <[l := m2]> h.
Proof. apply insert_insert_eq. Qed.

Lemma length16 (m : list R) :
  length m = 16%nat →
  ∃ x0 x1 x2 x3 x4 x5 x6 x7 x8 x9 x10 x11 x12 x13 x14 x15,
    m = [x0; x1; x2; x3; x4; x5; x6; x7; x8; x9; x10; x11; x12; x13; x14; x15].
Proof.
  intros H. do 16 (destruct m as [|? m]; [discriminate H|]).
  destruct m; [|discriminate H]. by repeat eexists.
Qed.

Lemma length3 (v : list R) :
  length v = 3%nat → ∃ x y z, v = [x; y; z].
Proof.
  intros H. do 3 (destruct v as [|? v]; [discriminate H|]).
  destruct v; [|discriminate H]. by repeat eexists.
Qed.

(** One statement of the source: a read of an array the hypotheses describe,
    or a write followed by the clean-up of the heap expression. *)
Ltac load_step :=
  erewrite run_load; [| first [eassumption | apply lookup_insert_eq
                               | rewrite lookup_insert_ne by congruence; eassumption]
                       | reflexivity].
Ltac store_step :=
  erewrite run_store; [| first [eassumption | apply lookup_insert_eq
                                | rewrite lookup_insert_ne by congruence; eassumption]];
  rewrite ?insert_twice; cbn [insert list_insert].
Ltac run := repeat first [rewrite run_ret | load_step | store_step].

Ltac explicit16 H :=
  let x := fresh "x" in
  apply length16 in H; destruct H as (?&?&?&?&?&?&?&?&?&?&?&?&?&?&?&?&H); subst.

(** Equality of two explicit arrays, entry by entry. *)
Tactic Notation "entrywise" tactic3(tac) :=
  repeat (apply (f_equal2 (@cons R)); [try tac|]); try reflexivity.

Lemma multiply_run (out a b : loc) (mo ma mb : list R) (h : heap) :
  h !! out = Some mo → h !! a = Some ma → h !! b = Some mb →
  length mo = 16%nat → length ma = 16%nat → length mb = 16%nat →
  mat4.multiply out a b h = Ret out (<[out := colmajor_product mb ma]> h).
Proof.
  intros Ho Ha Hb Lo La Lb.
  explicit16 Lo. explicit16 La. explicit16 Lb.
  unfold mat4.multiply. run.
  unfold mret, M_ret. do 2 f_equal.
  cbn -[Rplus Rmult]. unfold entry. cbn [nth Nat.add Nat.mul].
  entrywise ring.
Qed.

(** ** What each routine leaves in the heap *)

(** Arrays of different lengths are different objects. *)
Lemma loc_ne_by_length (h : heap) (l1 l2 : loc) (m1 m2 : list R) :
  h !! l1 = Some m1 → h !! l2 = Some m2 → length m1 ≠ length m2 → l1 ≠ l2.
Proof. intros H1 H2 Hl ->. rewrite H1 in H2. by injection H2 as ->. Qed.

(** [translate] writes indices 12 to 15 only: the first twelve entries of
    [out] stay what they were. *)
Lemma translate_run (out a v : loc) (mo ma : list R) (x y z : R) (h : heap) :
  h !! out = Some mo → h !! a = Some ma → h !! v = Some [x; y; z] →
  length mo = 16%nat → length ma = 16%nat →
  mat4.translate out a v h =
    Ret out (<[out := take 12 mo ++
                      [entry ma 0 0 * x + entry ma 0 1 * y + entry ma 0 2 * z + entry ma 0 3;
                       entry ma 1 0 * x + entry ma 1 1 * y + entry ma 1 2 * z + entry ma 1 3;
                       entry ma 2 0 * x + entry ma 2 1 * y + entry ma 2 2 * z + entry ma 2 3;
                       entry ma 3 0 * x + entry ma 3 1 * y + entry ma 3 2 * z + entry ma 3 3]]> h).
Proof.
  intros Ho Ha Hv Lo La.
  assert (out ≠ v) as Hov by (eapply loc_ne_by_length; eauto; rewrite Lo; cbn; lia).
  destruct (decide (a = out)) as [->|Hne].
  - assert (ma = mo) as -> by congruence. clear Ha La.
    explicit16 Lo. unfold mat4.translate. run. reflexivity.
  - explicit16 Lo. explicit16 La. unfold mat4.translate. run. reflexivity.
Qed.

(** [scale] writes indices 0 to 11 only. *)
Lemma scale_run (out a v : loc) (mo ma : list R) (x y z : R) (h : heap) :
  h !! out = Some mo → h !! a = Some ma → h !! v = Some [x; y; z] →
  length mo = 16%nat → length ma = 16%nat →
  mat4.scale out a v h =
    Ret out (<[out := [nth 0 ma 0 * x; nth 1 ma 0 * x; nth 2 ma 0 * x; nth 3 ma 0 * x;
                       nth 4 ma 0 * y; nth 5 ma 0 * y; nth 6 ma 0 * y; nth 7 ma 0 * y;
                       nth 8 ma 0 * z; nth 9 ma 0 * z; nth 10 ma 0 * z; nth 11 ma 0 * z]
                      ++ drop 12 mo]> h).
Proof.
  intros Ho Ha Hv Lo La.
  assert (out ≠ v) as Hov by (eapply loc_ne_by_length; eauto; rewrite Lo; cbn; lia).
  destruct (decide (a = out)) as [->|Hne].
  - assert (ma = mo) as -> by congruence. clear Ha La.
    explicit16 Lo. unfold mat4.scale. run. reflexivity.
  - explicit16 Lo. explicit16 La. unfold mat4.scale. run. reflexivity.
Qed.

(** [rotateX] writes indices 4 to 11 only. *)
Lemma rotateX_run (out a : loc) (rad : R) (mo ma : list R) (h : heap) :
  h !! out = Some mo → h !! a = Some ma →
  length mo = 16%nat → length ma = 16%nat →
  mat4.rotateX out a rad h =
    Ret out (<[out := take 4 mo ++
                 [nth 4 ma 0 * cos rad + nth 8 ma 0 * sin rad;
                  nth 5 ma 0 * cos rad + nth 9 ma 0 * sin rad;
                  nth 6 ma 0 * cos rad + nth 10 ma 0 * sin rad;
                  nth 7 ma 0 * cos rad + nth 11 ma 0 * sin rad;
                  nth 8 ma 0 * cos rad - nth 4 ma 0 * sin rad;
                  nth 9 ma 0 * cos rad - nth 5 ma 0 * sin rad;
                  nth 10 ma 0 * cos rad - nth 6 ma 0 * sin rad;
                  nth 11 ma 0 * cos rad - nth 7 ma 0 * sin rad]
                 ++ drop 12 mo]> h).
Proof.
  intros Ho Ha Lo La. explicit16 Lo. explicit16 La.
  unfold mat4.rotateX. run. reflexivity.
Qed.

(** [rotateY] writes indices 0 to 3 and 8 to 11 only. *)
Lemma rotateY_run (out a : loc) (rad : R) (mo ma : list R) (h : heap) :
  h !! out = Some mo → h !! a = Some ma →
  length mo = 16%nat → length ma = 16%nat →
  mat4.rotateY out a rad h =
    Ret out (<[out :=
                 [nth 0 ma 0 * cos rad - nth 8 ma 0 * sin rad;
                  nth 1 ma 0 * cos rad - nth 9 ma 0 * sin rad;
                  nth 2 ma 0 * cos rad - nth 10 ma 0 * sin rad;
                  nth 3 ma 0 * cos rad - nth 11 ma 0 * sin rad]
                 ++ take 4 (drop 4 mo) ++
                 [nth 0 ma 0 * sin rad + nth 8 ma 0 * cos rad;
                  nth 1 ma 0 * sin rad + nth 9 ma 0 * cos rad;
                  nth 2 ma 0 * sin rad + nth 10 ma 0 * cos rad;
                  nth 3 ma 0 * sin rad + nth 11 ma 0 * cos rad]
                 ++ drop 12 mo]> h).
Proof.
  intros Ho Ha Lo La. explicit16 Lo. explicit16 La.
  unfold mat4.rotateY. run. reflexivity.
Qed.

(** [rotateZ] writes indices 0 to 7 only. *)
Lemma rotateZ_run (out a : loc) (rad : R) (mo ma : list R) (h : heap) :
  h !! out = Some mo → h !! a = Some ma →
  length mo = 16%nat → length ma = 16%nat →
  mat4.rotateZ out a rad h =
    Ret out (<[out :=
                 [nth 0 ma 0 * cos rad + nth 4 ma 0 * sin rad;
                  nth 1 ma 0 * cos rad + nth 5 ma 0 * sin rad;
                  nth 2 ma 0 * cos rad + nth 6 ma 0 * sin rad;
                  nth 3 ma 0 * cos rad + nth 7 ma 0 * sin rad;
                  nth 4 ma 0 * cos rad - nth 0 ma 0 * sin rad;
                  nth 5 ma 0 * cos rad - nth 1 ma 0 * sin rad;
                  nth 6 ma 0 * cos rad - nth 2 ma 0 * sin rad;
                  nth 7 ma 0 * cos rad - nth 3 ma 0 * sin rad]
                 ++ drop 8 mo]> h).
Proof.
  intros Ho Ha Lo La. explicit16 Lo. explicit16 La.
  unfold mat4.rotateZ. run. reflexivity.
Qed.

Ltac div_step :=
  rewrite run_div by (first [assumption | lra]).

(** [ortho] writes indices 0, 5, 10 and 12 to 15 only. *)
Lemma ortho_run (out : loc) (left right bottom top near far : R)
    (mo : list R) (h : heap) :
  h !! out = Some mo → length mo = 16%nat →
  left ≠ right → bottom ≠ top → near ≠ far →
  mat4.ortho out left right bottom top near far h =
    Ret out (<[out :=
      [-2 * (1 / (left - right)); nth 1 mo 0; nth 2 mo 0; nth 3 mo 0;
       nth 4 mo 0; -2 * (1 / (bottom - top)); nth 6 mo 0; nth 7 mo 0;
       nth 8 mo 0; nth 9 mo 0; 2 * (1 / (near - far)); nth 11 mo 0;
       (left + right) * (1 / (left - right)); (top + bottom) * (1 / (bottom - top));
       (far + near) * (1 / (near - far)); 1]]> h).
Proof.
  intros Ho Lo Hlr Hbt Hnf. explicit16 Lo.
  unfold mat4.ortho. do 3 div_step. run. reflexivity.
Qed.

(** [copy] replaces all sixteen entries. *)
Lemma copy_run (out a : loc) (mo ma : list R) (h : heap) :
  h !! out = Some mo → h !! a = Some ma →
  length mo = 16%nat → length ma = 16%nat →
  mat4.copy out a h = Ret out (<[out := ma]> h).
Proof.
  intros Ho Ha Lo La. unfold mat4.copy. rewrite Ho, Ha.
  rewrite decide_True by lia.
  rewrite drop_ge by lia. by rewrite app_nil_r.
Qed.

Lemma run_assoc {A B C} (m : M A) (f : A → M B) (g : B → M C) (h : heap) :
  ((m ≫= f) ≫= g) h = (m ≫= (λ x, f x ≫= g)) h.
Proof. unfold mbind, M_bind. by destruct (m h). Qed.

(** * The routines in binary64 arithmetic *)

(** ** Steps of a run *)

Section fsteps.
Context {B : Type}.

Lemma frun_ret {A} (x : A) (k : A → IEEE.M B) h : (mret x ≫= k) h = k x h.
Proof. reflexivity. Qed.

Lemma frun_load (a : loc) (i : nat) (m : list spec_float) (k : spec_float → IEEE.M B) h :
  h !! a = Some m → (IEEE.load a i ≫= k) h = k (IEEE.item m i) h.
Proof. intros Ha. unfold mbind, IEEE.M_bind, IEEE.load. by rewrite Ha. Qed.

Lemma frun_store (out : loc) (i : nat) (v : spec_float) (m : list spec_float)
    (k : unit → IEEE.M B) h :
  h !! out = Some m →
  (IEEE.store out i v ≫= k) h = k () (<[out := <[i := IEEE.Math_fround v]> m]> h).
Proof. intros Ho. unfold mbind, IEEE.M_bind, IEEE.store. by rewrite Ho. Qed.
End fsteps.

Lemma frun_alloc {B} (m : list spec_float) (k : loc → IEEE.M B) h :
  (IEEE.alloc m ≫= k) h = k (fresh (dom h)) (<[fresh (dom h) := m]> h).
Proof. reflexivity. Qed.

Lemma fresh_not_in (h : gmap positive (list spec_float)) : h !! fresh (dom h) = None.
Proof. apply not_elem_of_dom, is_fresh. Qed.

Ltac fload_step :=
  erewrite frun_load; [| first [eassumption | apply lookup_insert_eq]].
Ltac fstore_step :=
  erewrite frun_store; [| first [eassumption | apply lookup_insert_eq]];
  rewrite ?insert_insert_eq.
Ltac frun := repeat first [rewrite frun_ret | fload_step | fstore_step].

Lemma numbers16 (m : list spec_float) :
  length m = 16%nat →
  ∃ x0 x1 x2 x3 x4 x5 x6 x7 x8 x9 x10 x11 x12 x13 x14 x15,
    m = [x0; x1; x2; x3; x4; x5; x6; x7; x8; x9; x10; x11; x12; x13; x14; x15].
Proof.
  intros H. do 16 (destruct m as [|? m]; [discriminate H|]).
  destruct m; [|discriminate H]. by repeat eexists.
Qed.

Ltac explicit_numbers H :=
  apply numbers16 in H; destruct H as (?&?&?&?&?&?&?&?&?&?&?&?&?&?&?&?&H); subst.

(** ** Binary64 arithmetic on zeros and on one *)

(** The integer operations of [SpecFloat] are those of the core library:
    they are named as the standard library names them, for [lia] and the
    lemmas of [ZArith]. *)
Ltac stdZ :=
  change IntDef.Z.add with Z.add in *;
  change IntDef.Z.sub with Z.sub in *;
  change IntDef.Z.opp with Z.opp in *;
  change IntDef.Z.mul with Z.mul in *;
  change IntDef.Z.max with Z.max in *;
  change IntDef.Z.min with Z.min in *;
  change IntDef.Z.eqb with Z.eqb in *;
  change IntDef.Z.leb with Z.leb in *;
  change IntDef.Z.compare with Z.compare in *;
  change PosDef.Pos.mul with Pos.mul in *;
  change PosDef.Pos.succ with Pos.succ in *;
  change PosDef.Pos.compare_cont with Pos.compare_cont in *.


Lemma of_Z_0 : IEEE.of_Z 0 = S754_zero false.
Proof. reflexivity. Qed.

Lemma of_Z_1 : IEEE.of_Z 1 = float_one.
Proof. reflexivity. Qed.

Lemma mul_one_r (s : bool) (m : positive) (e : Z) :
  bounded 53 1024 m e = true →
  IEEE.mul (S754_finite s m e) float_one = S754_finite s m e.
Proof.
  intros Hb. unfold IEEE.mul, SFmul. stdZ.
  rewrite Pos.mul_comm.
  change (4503599627370496 * m)%positive with
    (m~0~0~0~0~0~0~0~0~0~0~0~0~0~0~0~0~0~0~0~0~0~0~0~0~0~0~0~0~0~0~0~0~0~0~0~0~0~0~0~0~0~0~0~0~0~0~0~0~0~0~0~0)%positive.
  unfold bounded, canonical_mantissa in Hb. stdZ.
  apply andb_prop in Hb as [Hc He].
  apply Z.eqb_eq in Hc. apply Z.leb_le in He.
  unfold binary_round_aux, shr_fexp. stdZ.
  cbn [Zdigits2 digits2_pos]. stdZ.
  match goal with |- context [fexp 53 1024 (Z.pos ?d + (e + -52))] =>
    replace (Z.pos d + (e + -52))%Z with (Z.pos (digits2_pos m) + e)%Z by lia
  end.
  rewrite Hc.
  replace (e - (e + -52))%Z with 52%Z by lia.
  cbn [shr shr_record_of_loc SpecFloat.iter_pos shr_1 orb]. stdZ.
  cbn [shr_m loc_of_shr_record round_nearest_even Zdigits2].
  replace (e + -52 + 52)%Z with e by lia.
  rewrite Hc. rewrite Z.sub_diag. cbn [shr shr_record_of_loc shr_m].
  rewrite (proj2 (Z.leb_le _ _) He). by rewrite xorb_false_r.
Qed.

Lemma mul_one_l (s : bool) (m : positive) (e : Z) :
  bounded 53 1024 m e = true →
  IEEE.mul float_one (S754_finite s m e) = S754_finite s m e.
Proof.
  intros Hb. unfold IEEE.mul, SFmul. stdZ.
  change (4503599627370496 * m)%positive with
    (m~0~0~0~0~0~0~0~0~0~0~0~0~0~0~0~0~0~0~0~0~0~0~0~0~0~0~0~0~0~0~0~0~0~0~0~0~0~0~0~0~0~0~0~0~0~0~0~0~0~0~0~0)%positive.
  unfold bounded, canonical_mantissa in Hb. stdZ.
  apply andb_prop in Hb as [Hc He].
  apply Z.eqb_eq in Hc. apply Z.leb_le in He.
  unfold binary_round_aux, shr_fexp. stdZ.
  cbn [Zdigits2 digits2_pos]. stdZ.
  match goal with |- context [fexp 53 1024 (Z.pos ?d + (-52 + e))] =>
    replace (Z.pos d + (-52 + e))%Z with (Z.pos (digits2_pos m) + e)%Z by lia
  end.
  rewrite Hc.
  replace (e - (-52 + e))%Z with 52%Z by lia.
  cbn [shr shr_record_of_loc SpecFloat.iter_pos shr_1 orb]. stdZ.
  cbn [shr_m loc_of_shr_record round_nearest_even Zdigits2].
  replace (-52 + e + 52)%Z with e by lia.
  rewrite Hc. rewrite Z.sub_diag. cbn [shr shr_record_of_loc shr_m].
  by rewrite (proj2 (Z.leb_le _ _) He).
Qed.

(** Products, sums and differences with a zero. *)
Lemma mul_zero_finite (s s' : bool) (m : positive) (e : Z) :
  IEEE.mul (S754_zero s) (S754_finite s' m e) = S754_zero (xorb s s').
Proof. reflexivity. Qed.

Lemma mul_finite_zero (s s' : bool) (m : positive) (e : Z) :
  IEEE.mul (S754_finite s m e) (S754_zero s') = S754_zero (xorb s s').
Proof. reflexivity. Qed.

Lemma mul_zero_zero (s s' : bool) :
  IEEE.mul (S754_zero s) (S754_zero s') = S754_zero (xorb s s').
Proof. reflexivity. Qed.

Lemma add_zero_zero (s s' : bool) :
  IEEE.add (S754_zero s) (S754_zero s') = S754_zero (s && s').
Proof. by destruct s, s'. Qed.

Lemma add_zero_finite (s s' : bool) (m : positive) (e : Z) :
  IEEE.add (S754_zero s) (S754_finite s' m e) = S754_finite s' m e.
Proof. reflexivity. Qed.

Lemma add_finite_zero (s s' : bool) (m : positive) (e : Z) :
  IEEE.add (S754_finite s m e) (S754_zero s') = S754_finite s m e.
Proof. reflexivity. Qed.

Lemma sub_zero_zero (s s' : bool) :
  IEEE.sub (S754_zero s) (S754_zero s') = S754_zero (s && negb s').
Proof. by destruct s, s'. Qed.

Lemma sub_zero_finite (s s' : bool) (m : positive) (e : Z) :
  IEEE.sub (S754_zero s) (S754_finite s' m e) = S754_finite (negb s') m e.
Proof. reflexivity. Qed.

Lemma sub_finite_zero (s s' : bool) (m : positive) (e : Z) :
  IEEE.sub (S754_finite s m e) (S754_zero s') = S754_finite s m e.
Proof. reflexivity. Qed.

(** [x - x] and [x + (-x)] are [+0]. *)
Lemma sub_finite_self (s : bool) (m : positive) (e : Z) :
  IEEE.sub (S754_finite s m e) (S754_finite s m e) = S754_zero false.
Proof.
  unfold IEEE.sub, SFsub. stdZ. by rewrite Z.sub_diag.
Qed.

Lemma add_finite_opposite (s : bool) (m : positive) (e : Z) :
  IEEE.add (S754_finite s m e) (S754_finite (negb s) m e) = S754_zero false.
Proof.
  unfold IEEE.add, SFadd. stdZ.
  replace (cond_Zopp s _ + cond_Zopp (negb s) _)%Z with 0%Z; [done|].
  destruct s; cbn [cond_Zopp negb]; stdZ; lia.
Qed.

Lemma add_opposite_finite (s : bool) (m : positive) (e : Z) :
  IEEE.add (S754_finite (negb s) m e) (S754_finite s m e) = S754_zero false.
Proof.
  unfold IEEE.add, SFadd. stdZ.
  replace (cond_Zopp (negb s) _ + cond_Zopp s _)%Z with 0%Z; [done|].
  destruct s; cbn [cond_Zopp negb]; stdZ; lia.
Qed.

Lemma sub_self (x : spec_float) :
  IEEE.is_finite x = true → IEEE.sub x x = S754_zero false.
Proof.
  destruct x as [[]|[]| |s m e]; try done. intros _. apply sub_finite_self.
Qed.

Lemma one_times_one : IEEE.mul float_one float_one = float_one.
Proof. reflexivity. Qed.

Lemma one_by_one : IEEE.div float_one float_one = float_one.
Proof. reflexivity. Qed.

(** ** Rounding to binary32 *)

Lemma binary_round_aux_opp (prec emax : Z) (s : bool) (m e : Z) (l : location) :
  binary_round_aux prec emax (negb s) m e l = SFopp (binary_round_aux prec emax s m e l).
Proof.
  unfold binary_round_aux.
  destruct (shr_fexp prec emax m e l) as [mrs' e'].
  destruct (shr_fexp prec emax _ e' loc_Exact) as [mrs'' e''].
  destruct (shr_m mrs''); [done| |done].
  by destruct (IntDef.Z.leb e'' _).
Qed.

Lemma fround_opp (x : spec_float) :
  IEEE.Math_fround (IEEE.neg x) = IEEE.neg (IEEE.Math_fround x).
Proof.
  destruct x as [s|s| |s m e]; try done.
  unfold IEEE.Math_fround, IEEE.neg. cbn [SFopp]. unfold binary_round.
  destruct (shl_align m e _) as [mz ez]. rewrite binary_round_aux_opp.
  destruct (binary_round_aux 24 128 s (Z.pos mz) ez loc_Exact) as [s'|s'| |s' m' e'];
    cbn [SFopp]; try done.
  destruct (shl_align m' e' _) as [mz' ez']. apply binary_round_aux_opp.
Qed.

(** Rounding never produces [NaN]. *)
Lemma iter_pos_invariant {A} (P : A → Prop) (f : A → A) (n : positive) (x : A) :
  (∀ y, P y → P (f y)) → P x → P (SpecFloat.iter_pos f n x).
Proof.
  intros Hf. revert x. induction n as [n IH|n IH|]; intros x Hx; cbn [SpecFloat.iter_pos].
  - apply IH, IH, Hf, Hx.
  - apply IH, IH, Hx.
  - apply Hf, Hx.
Qed.

Lemma shr_1_nonneg (r : shr_record) : (0 ≤ shr_m r)%Z → (0 ≤ shr_m (shr_1 r))%Z.
Proof.
  destruct r as [m r s]. cbn [shr_m]. intros Hm.
  destruct m as [|[p|p|]|p]; cbn [shr_1 shr_m]; lia.
Qed.

Lemma shr_fexp_nonneg (prec emax m e : Z) (l : location) :
  (0 ≤ m)%Z → (0 ≤ shr_m (shr_fexp prec emax m e l).1)%Z.
Proof.
  intros Hm. unfold shr_fexp, shr.
  assert (0 ≤ shr_m (shr_record_of_loc m l))%Z as Hr by (by destruct l as [|[]]).
  destruct (IntDef.Z.sub _ _) as [|p|p]; cbn [fst]; [done| |done].
  by apply iter_pos_invariant; [apply shr_1_nonneg|].
Qed.

Lemma binary_round_aux_not_NaN (prec emax : Z) (s : bool) (m e : Z) (l : location) :
  (0 ≤ m)%Z → IEEE.is_NaN (binary_round_aux prec emax s m e l) = false.
Proof.
  intros Hm. unfold binary_round_aux.
  pose proof (shr_fexp_nonneg prec emax m e l Hm) as H1.
  destruct (shr_fexp prec emax m e l) as [mrs' e']. cbn [fst] in H1.
  assert (0 ≤ round_nearest_even (shr_m mrs') (loc_of_shr_record mrs'))%Z as H2.
  { unfold round_nearest_even. destruct (loc_of_shr_record mrs') as [|[]]; try done.
    - destruct (IntDef.Z.even _); stdZ; lia.
    - stdZ. lia. }
  pose proof (shr_fexp_nonneg prec emax _ e' loc_Exact H2) as H3.
  destruct (shr_fexp prec emax _ e' loc_Exact) as [mrs'' e'']. cbn [fst] in H3.
  destruct (shr_m mrs''); [done| |lia].
  by destruct (IntDef.Z.leb e'' _).
Qed.

Lemma binary_round_not_NaN (prec emax : Z) (s : bool) (m : positive) (e : Z) :
  IEEE.is_NaN (binary_round prec emax s m e) = false.
Proof.
  unfold binary_round. destruct (shl_align m e _) as [mz ez].
  by apply binary_round_aux_not_NaN.
Qed.

Lemma fround_not_NaN (x : spec_float) :
  IEEE.is_NaN x = false → IEEE.is_NaN (IEEE.Math_fround x) = false.
Proof.
  destruct x as [s|s| |s m e]; try done. intros _. unfold IEEE.Math_fround.
  pose proof (binary_round_not_NaN 24 128 s m e) as H.
  destruct (binary_round 24 128 s m e) as [s'|s'| |s' m' e']; try done.
  apply binary_round_not_NaN.
Qed.

(** [x === x] unless [x] is [NaN]. *)
Lemma strict_eq_refl (x : spec_float) :
  IEEE.is_NaN x = false → IEEE.strict_eq x x = true.
Proof.
  destruct x as [[]|[]| |s m e]; try done. intros _.
  unfold IEEE.strict_eq, SFeqb, SFcompare. stdZ.
  rewrite Z.compare_refl, Pos.compare_cont_refl. by destruct s.
Qed.

Lemma fround_one : IEEE.Math_fround float_one = float_one.
Proof. reflexivity. Qed.

Lemma fround_zero (s : bool) : IEEE.Math_fround (S754_zero s) = S754_zero s.
Proof. reflexivity. Qed.

Lemma fround_negb (s : bool) (m : positive) (e : Z) :
  IEEE.Math_fround (S754_finite s m e) = S754_finite s m e →
  IEEE.Math_fround (S754_finite (negb s) m e) = S754_finite (negb s) m e.
Proof.
  intros H. change (S754_finite (negb s) m e) with (IEEE.neg (S754_finite s m e)).
  by rewrite fround_opp, H.
Qed.

(** What [binary32] and [is_finite] say of a zero or a finite value. *)
Lemma binary32_finite (s : bool) (m : positive) (e : Z) :
  IEEE.binary32 (S754_finite s m e) = true →
  bounded 53 1024 m e = true ∧
  IEEE.Math_fround (S754_finite s m e) = S754_finite s m e.
Proof.
  unfold IEEE.binary32, IEEE.binary64, valid_binary. intros H.
  apply andb_prop in H as [H1 H2]. by apply bool_decide_eq_true in H2.
Qed.

(** What [x === y] says when [y] is a zero or a finite value. *)
Lemma strict_eq_zero (p : spec_float) (s : bool) :
  IEEE.strict_eq p (S754_zero s) = true → ∃ s', p = S754_zero s'.
Proof. destruct p as [s'|[]| |[] ? ?]; try done. by exists s'. Qed.

Lemma strict_eq_finite (p : spec_float) (s : bool) (m : positive) (e : Z) :
  IEEE.strict_eq p (S754_finite s m e) = true → p = S754_finite s m e.
Proof.
  destruct p as [?|[]| |s' m' e']; try (by destruct s).
  unfold IEEE.strict_eq, SFeqb, SFcompare. stdZ.
  destruct s', s; try done.
  - destruct (Z.compare_spec e' e) as [->| |]; try done.
    destruct (Pos.compare_cont Eq m' m) eqn:Hm; try done.
    by apply (Pos.compare_eq m' m) in Hm as ->.
  - destruct (Z.compare_spec e' e) as [->| |]; try done.
    destruct (Pos.compare_cont Eq m' m) eqn:Hm; try done.
    by apply (Pos.compare_eq m' m) in Hm as ->.
Qed.

Lemma strict_eq_not_NaN (p q : spec_float) :
  IEEE.strict_eq p q = true → IEEE.is_NaN p = false.
Proof. by destruct p. Qed.

Lemma hypot_of_zeros (host : IEEE.Math) (s1 s2 s3 : bool) :
  IEEE.Math_hypot host (S754_zero s1) (S754_zero s2) (S754_zero s3) = S754_zero false.
Proof. reflexivity. Qed.

(** ** Falsy numbers: the zeros and [NaN] *)

Lemma falsy_mul_l (x y : spec_float) :
  IEEE.falsy x = true → IEEE.falsy (IEEE.mul x y) = true.
Proof. by destruct x as [?|?| |? ? ?], y as [?|?| |? ? ?]. Qed.

Lemma falsy_mul_r (x y : spec_float) :
  IEEE.falsy y = true → IEEE.falsy (IEEE.mul x y) = true.
Proof. by destruct x as [?|?| |? ? ?], y as [?|?| |? ? ?]. Qed.

Lemma falsy_add (x y : spec_float) :
  IEEE.falsy x = true → IEEE.falsy y = true → IEEE.falsy (IEEE.add x y) = true.
Proof. by destruct x as [[]|?| |? ? ?], y as [[]|?| |? ? ?]. Qed.

Lemma falsy_sub (x y : spec_float) :
  IEEE.falsy x = true → IEEE.falsy y = true → IEEE.falsy (IEEE.sub x y) = true.
Proof. by destruct x as [[]|?| |? ? ?], y as [[]|?| |? ? ?]. Qed.

Lemma falsy_fround (x : spec_float) :
  IEEE.falsy x = true → IEEE.falsy (IEEE.Math_fround x) = true.
Proof. by destruct x. Qed.

Lemma falsy_of_zero (x : spec_float) : IEEE.is_zero x = true → IEEE.falsy x = true.
Proof. by destruct x. Qed.

Ltac falsy :=
  first
    [ assumption
    | apply falsy_add; falsy
    | apply falsy_sub; falsy
    | apply falsy_fround; falsy
    | apply falsy_mul_l; falsy
    | apply falsy_mul_r; falsy ].

(** ** Simplification of arithmetic on zeros and on one *)

Ltac fsimpl :=
  repeat first
    [ rewrite of_Z_0 | rewrite of_Z_1
    | rewrite one_times_one | rewrite one_by_one | rewrite fround_one
    | rewrite fround_zero
    | rewrite mul_one_l by assumption | rewrite mul_one_r by assumption
    | rewrite mul_zero_finite | rewrite mul_finite_zero | rewrite mul_zero_zero
    | rewrite add_zero_zero | rewrite add_zero_finite | rewrite add_finite_zero
    | rewrite sub_zero_zero | rewrite sub_zero_finite | rewrite sub_finite_zero
    | rewrite sub_finite_self | rewrite add_finite_opposite | rewrite add_opposite_finite
    | rewrite hypot_of_zeros
    | rewrite fround_negb by assumption
    | match goal with H : IEEE.Math_fround ?x = ?x |- _ => rewrite H end
    | progress cbn [IEEE.neg SFopp IEEE.is_zero IEEE.falsy negb]
    | progress cbv beta iota ].

(** A number that is finite is a zero or a finite value; when it is a
    binary64 number, its mantissa and exponent are in range. *)
Ltac finite_cases x H :=
  destruct x as [?|?| |? ? ?]; try discriminate H; clear H.

Ltac binary32_cases x H Hf :=
  destruct x as [?|?| |? ? ?]; try discriminate Hf; clear Hf;
  [clear H | apply binary32_finite in H as [? ?]].

Ltac entries := repeat (apply List.Forall2_cons); try apply List.Forall2_nil.

(** The value of an explicit finite number, as a quotient of two integer
    literals. *)
Ltac to_R_values :=
  repeat match goal with
  | |- context [IEEE.to_R ?x] =>
      let v := eval vm_compute in x in
      lazymatch v with
      | S754_finite ?s ?m ?e =>
          let z := eval vm_compute in (if s then Z.neg m else Z.pos m) in
          let b := eval vm_compute in (0 <=? e)%Z in
          lazymatch b with
          | true =>
              let n := eval vm_compute in (z * 2 ^ e)%Z in
              change (IEEE.to_R x) with (IZR n)
          | false =>
              let d := eval vm_compute in (2 ^ (- e))%Z in
              change (IEEE.to_R x) with (IZR z / IZR d)
          end
      | _ => change (IEEE.to_R x) with 0
      end
  end.

(** ** The runs of the routines *)

Lemma invert_run_null (out a : loc) (ma : list spec_float) h :
  h !! a = Some ma → IEEE.falsy (IEEE.mat4.invert_det ma) = true →
  IEEE.mat4.invert out a h = Some (None, h).
Proof.
  intros Ha Hdet. unfold IEEE.mat4.invert. repeat fload_step. cbv zeta.
  unfold IEEE.mat4.invert_det in Hdet. cbv zeta in Hdet. by rewrite Hdet.
Qed.

Lemma invert_run_some (out a : loc) (mo ma : list spec_float) h :
  h !! a = Some ma → h !! out = Some mo →
  IEEE.falsy (IEEE.mat4.invert_det ma) = false →
  ∃ mi, IEEE.mat4.invert out a h = Some (Some out, <[out := mi]> h) ∧
        length mi = length mo.
Proof.
  intros Ha Ho Hdet. unfold IEEE.mat4.invert. repeat fload_step. cbv zeta.
  unfold IEEE.mat4.invert_det in Hdet. cbv zeta in Hdet. rewrite Hdet.
  frun. eexists. split; [reflexivity|]. by rewrite !length_insert.
Qed.

(** The run of [perspective]: all sixteen entries are written. *)
Lemma perspective_frun (host : IEEE.Math) (out : loc) (mo : list spec_float)
    (fov aspect near far : spec_float) (h : gmap positive (list spec_float)) :
  h !! out = Some mo → length mo = 16%nat →
  let f := IEEE.div (IEEE.of_Z 1) (IEEE.Math_tan host (IEEE.div fov (IEEE.of_Z 2))) in
  let nf := IEEE.div (IEEE.of_Z 1) (IEEE.sub near far) in
  let o := IEEE.of_Z 0 in
  IEEE.mat4.perspective host out fov aspect near far h =
    Some (out, <[out := IEEE.Math_fround <$>
      [IEEE.div f aspect; o; o; o;
       o; f; o; o;
       o; o; IEEE.mul (IEEE.add far near) nf; IEEE.neg (IEEE.of_Z 1);
       o; o; IEEE.mul (IEEE.mul (IEEE.mul (IEEE.of_Z 2) far) near) nf; o]]> h).
Proof.
  intros Ho Lo f nf o. explicit_numbers Lo.
  unfold IEEE.mat4.perspective. cbv zeta. frun. cbn [insert list_insert].
  reflexivity.
Qed.

(** [scale] in place. *)
Lemma scale_in_place_frun (a : loc) (ma : list spec_float) (x y z : spec_float)
    (h : gmap positive (list spec_float)) :
  h !! a = Some ma → length ma = 16%nat →
  IEEE.mat4.scale a a [x; y; z] h =
    Some (a, <[a := (IEEE.Math_fround <$>
                       [IEEE.mul (IEEE.item ma 0) x; IEEE.mul (IEEE.item ma 1) x;
                        IEEE.mul (IEEE.item ma 2) x; IEEE.mul (IEEE.item ma 3) x;
                        IEEE.mul (IEEE.item ma 4) y; IEEE.mul (IEEE.item ma 5) y;
                        IEEE.mul (IEEE.item ma 6) y; IEEE.mul (IEEE.item ma 7) y;
                        IEEE.mul (IEEE.item ma 8) z; IEEE.mul (IEEE.item ma 9) z;
                        IEEE.mul (IEEE.item ma 10) z; IEEE.mul (IEEE.item ma 11) z])
                    ++ drop 12 ma]> h).
Proof.
  intros Ha La. explicit_numbers La. unfold IEEE.mat4.scale. cbv zeta.
  repeat first [rewrite frun_ret | fload_step | fstore_step
               | progress cbn [insert list_insert IEEE.item lookup list_lookup
                               default from_option Datatypes.id]].
  reflexivity.
Qed.

(** The run of [multiply]. *)
Lemma multiply_frun (out a b : loc) (mo ma mb : list spec_float)
    (h : gmap positive (list spec_float)) :
  h !! out = Some mo → h !! a = Some ma → h !! b = Some mb → length mo = 16%nat →
  let a' := IEEE.item ma in
  let b' := IEEE.item mb in
  let dot i j :=
    IEEE.add (IEEE.add (IEEE.add (IEEE.mul (a' (4 * i)%nat) (b' j))
                                 (IEEE.mul (a' (4 * i + 1)%nat) (b' (4 + j)%nat)))
                       (IEEE.mul (a' (4 * i + 2)%nat) (b' (8 + j)%nat)))
             (IEEE.mul (a' (4 * i + 3)%nat) (b' (12 + j)%nat)) in
  IEEE.mat4.multiply out a b h =
    Some (out, <[out := IEEE.Math_fround <$>
      [dot 0 0; dot 0 1; dot 0 2; dot 0 3;
       dot 1 0; dot 1 1; dot 1 2; dot 1 3;
       dot 2 0; dot 2 1; dot 2 2; dot 2 3;
       dot 3 0; dot 3 1; dot 3 2; dot 3 3]%nat]> h).
Proof.
  intros Ho Ha Hb Lo a' b' dot. explicit_numbers Lo.
  unfold IEEE.mat4.multiply. repeat fload_step. frun. cbn [insert list_insert].
  reflexivity.
Qed.

(** [lookAt] writes all sixteen entries: what it stores does not depend on
    what [out] held. *)
Lemma lookAt_writes_every_entry (host : IEEE.Math) (eye center up : list spec_float) :
  ∃ m, length m = 16%nat ∧
    ∀ (out : loc) (mo : list spec_float) (h : gmap positive (list spec_float)),
      h !! out = Some mo → length mo = 16%nat →
      IEEE.mat4.lookAt host out eye center up h = Some (out, <[out := m]> h).
Proof.
  unfold IEEE.mat4.lookAt. cbv zeta.
  match goal with |- context [IEEE.is_zero ?l] => destruct (IEEE.is_zero l) end;
    cbv beta iota;
    (match goal with |- context [IEEE.is_zero ?l] => destruct (IEEE.is_zero l) end);
    cbv beta iota.
  all: eexists; split; cycle 1;
    [ intros out mo h Ho Lo; explicit_numbers Lo; frun; cbn [insert list_insert];
      reflexivity
    | reflexivity ].
Qed.

Lemma create_frun (h : gmap positive (list spec_float)) :
  IEEE.mat4.create h =
    Some (fresh (dom h),
          <[fresh (dom h) := translation (IEEE.of_Z 0) (IEEE.of_Z 0) (IEEE.of_Z 0)]> h).
Proof.
  unfold IEEE.mat4.create. rewrite frun_alloc. frun.
  cbn [replicate insert list_insert]. reflexivity.
Qed.


(** * Properties of the specification *)

(** ** C1: the product [multiply] computes *)

(** C1.  For all matrices [multiply(out, a, b)] stores the column-major
    product [b × a], the transform that applies [a] first and then [b]
    ([multiply_run]); here is one pair on which that is not [a × b].  With [a] the translation by (2, 3, 4) and [b] the scaling by
    (2, 2, 2), [multiply(out, a, b)] stores the translation part (4, 6, 8),
    which is that of [b × a]; the column-major product [a × b], "apply b
    first and then a", has the translation part (2, 3, 4).  So [multiply]
    does not store [a × b] in the column-major reading. *)
Theorem multiply_is_not_colmajor_a_times_b :
  let a := translation_matrix 2 3 4 in
  let b := scaling_matrix 2 2 2 in
  let h : heap := {[ 1%positive := replicate 16 0; 2%positive := a; 3%positive := b ]} in
  mat4.multiply 1 2 3 h =
    Ret 1%positive (<[1%positive := colmajor_product b a]> h) ∧
  colmajor_product b a = [2; 0; 0; 0;  0; 2; 0; 0;  0; 0; 2; 0;  4; 6; 8; 1] ∧
  colmajor_product a b = [2; 0; 0; 0;  0; 2; 0; 0;  0; 0; 2; 0;  2; 3; 4; 1] ∧
  colmajor_product b a ≠ colmajor_product a b.
Proof.
  intros a b h.
  assert (colmajor_product b a = [2; 0; 0; 0;  0; 2; 0; 0;  0; 0; 2; 0;  4; 6; 8; 1]) as Hba.
  { unfold colmajor_product, entry, a, b, translation_matrix, scaling_matrix.
    cbn -[Rplus Rmult]. entrywise lra. }
  assert (colmajor_product a b = [2; 0; 0; 0;  0; 2; 0; 0;  0; 0; 2; 0;  2; 3; 4; 1]) as Hab.
  { unfold colmajor_product, entry, a, b, translation_matrix, scaling_matrix.
    cbn -[Rplus Rmult]. entrywise lra. }
  split; [|split; [exact Hba|split; [exact Hab|]]].
  - apply (multiply_run _ _ _ (replicate 16 0) a b); try reflexivity.
  - rewrite Hba, Hab. intros [= H]. lra.
Qed.

(** The routines that take a matrix [a] post-multiply it, in the
    column-major reading, when they work in place: [translate(a, a, v)]
    stores [a × T(v)] and [scale(a, a, v)] stores [a × S(v)]. *)
Lemma translate_in_place (a v : loc) (ma : list R) (x y z : R) (h : heap) :
  h !! a = Some ma → h !! v = Some [x; y; z] → length ma = 16%nat →
  mat4.translate a a v h =
    Ret a (<[a := colmajor_product ma (translation_matrix x y z)]> h).
Proof.
  intros Ha Hv La. rewrite (translate_run a a v ma ma x y z h) by done.
  do 2 f_equal. explicit16 La.
  unfold colmajor_product, entry, translation_matrix.
  cbn -[Rplus Rmult]. entrywise ring.
Qed.

Lemma scale_in_place (a v : loc) (ma : list R) (x y z : R) (h : heap) :
  h !! a = Some ma → h !! v = Some [x; y; z] → length ma = 16%nat →
  mat4.scale a a v h =
    Ret a (<[a := colmajor_product ma (scaling_matrix x y z)]> h).
Proof.
  intros Ha Hv La. rewrite (scale_run a a v ma ma x y z h) by done.
  do 2 f_equal. explicit16 La.
  unfold colmajor_product, entry, scaling_matrix.
  cbn -[Rplus Rmult]. entrywise ring.
Qed.

(** ** C2: what the routines write into [out] *)

(** C2.  [copy], [multiply], [perspective] and [lookAt] replace all sixteen
    entries of [out] and return [out] ([copy_run], [multiply_run],
    [perspective_frun], [lookAt_writes_every_entry]); the other routines
    return [out] too but write only some of its entries.  [translate] into a fresh [Float32Array(16)] (all zeros), with [a]
    the identity and [v] = (1, 2, 3), returns [out] with its first twelve
    entries still zero, whereas the complete result [a × T(v)] is the
    translation matrix.  [ortho] into a matrix that holds sevens leaves nine
    of them in place.  Neither writes its complete 16-element result. *)
Theorem translate_and_ortho_keep_stale_entries :
  let h : heap := {[ 1%positive := replicate 16 0;
                     2%positive := identity_matrix;
                     3%positive := [1; 2; 3] ]} in
  let h' : heap := {[ 1%positive := replicate 16 7 ]} in
  mat4.translate 1 2 3 h =
    Ret 1%positive
        (<[1%positive := [0; 0; 0; 0;  0; 0; 0; 0;  0; 0; 0; 0;  1; 2; 3; 1]]> h) ∧
  colmajor_product identity_matrix (translation_matrix 1 2 3) =
    [1; 0; 0; 0;  0; 1; 0; 0;  0; 0; 1; 0;  1; 2; 3; 1] ∧
  mat4.ortho 1 (-1) 1 (-1) 1 (-1) 1 h' =
    Ret 1%positive
        (<[1%positive := [1; 7; 7; 7;  7; 1; 7; 7;  7; 7; -1; 7;  0; 0; 0; 1]]> h').
Proof.
  intros h h'. split; [|split].
  - rewrite (translate_run 1 2 3 (replicate 16 0) identity_matrix 1 2 3 h) by done.
    do 2 f_equal. unfold entry, identity_matrix. cbn -[Rplus Rmult]. entrywise lra.
  - unfold colmajor_product, entry, identity_matrix, translation_matrix.
    cbn -[Rplus Rmult]. entrywise lra.
  - rewrite (ortho_run 1 (-1) 1 (-1) 1 (-1) 1 (replicate 16 7) h') by (done || lra).
    do 2 f_equal. cbn -[Rplus Rmult Rminus Rdiv Ropp]. entrywise (field_simplify; lra).
Qed.

(** ** C3: [invert] and the determinant *)




(** ** C4: the inversion round trip *)

(** A matrix scaled in place by a vector with a zero component: [invert]
    finds a falsy determinant. *)
Lemma invert_after_zero_scale (out a : loc) (ma : list spec_float) (x y z : spec_float)
    (h : gmap positive (list spec_float)) :
  h !! a = Some ma → length ma = 16%nat →
  IEEE.is_zero x || IEEE.is_zero y || IEEE.is_zero z = true →
  ∃ ms,
    IEEE.mat4.scale a a [x; y; z] h = Some (a, <[a := ms]> h) ∧
    IEEE.mat4.invert out a (<[a := ms]> h) = Some (None, <[a := ms]> h).
Proof.
  intros Ha La Hzero. eexists. split; [by apply scale_in_place_frun|].
  apply (invert_run_null out a _ _ (lookup_insert_eq _ _ _)).
  explicit_numbers La.
  unfold IEEE.mat4.invert_det, IEEE.item.
  cbn [fmap list_fmap app drop lookup list_lookup default from_option Datatypes.id].
  apply orb_prop in Hzero as [Hzero|Hz]; [apply orb_prop in Hzero as [Hx|Hy]|].
  - apply falsy_of_zero in Hx. falsy.
  - apply falsy_of_zero in Hy. falsy.
  - apply falsy_of_zero in Hz. falsy.
Qed.

Lemma invert_of_translation (inv m : loc) (mi0 : list spec_float)
    (x y z : spec_float) (h : gmap positive (list spec_float)) :
  h !! m = Some (translation x y z) → h !! inv = Some mi0 → length mi0 = 16%nat →
  IEEE.binary32 x = true → IEEE.binary32 y = true → IEEE.binary32 z = true →
  IEEE.is_finite x = true → IEEE.is_finite y = true → IEEE.is_finite z = true →
  ∃ mi,
    IEEE.mat4.invert inv m h = Some (Some inv, <[inv := mi]> h) ∧
    same_numbers mi (translation (IEEE.neg x) (IEEE.neg y) (IEEE.neg z)).
Proof.
  intros Hm Hinv Li Bx By Bz Fx Fy Fz. explicit_numbers Li. 
  unfold IEEE.mat4.invert. repeat fload_step.  cbv zeta. unfold IEEE.item.
  cbn [lookup list_lookup default from_option Datatypes.id].
    match goal with |- context [IEEE.falsy ?d] => assert (d = float_one) as Hdet end.
  { binary32_cases x Bx Fx; binary32_cases y By Fy; binary32_cases z Bz Fz;
      fsimpl; reflexivity. }
  rewrite Hdet.
  cbn [IEEE.falsy]. rewrite of_Z_1, one_by_one. 
  frun. cbn [insert list_insert].
  eexists. split; [reflexivity|].
  entries.
  all: binary32_cases x Bx Fx; binary32_cases y By Fy; binary32_cases z Bz Fz;
    fsimpl; try reflexivity; apply strict_eq_refl; reflexivity.
Qed.

Lemma multiply_translation_by_inverse (out m inv : loc) (mo mi : list spec_float)
    (x y z : spec_float) (h : gmap positive (list spec_float)) :
  h !! m = Some (translation x y z) → h !! inv = Some mi → h !! out = Some mo →
  length mo = 16%nat →
  same_numbers mi (translation (IEEE.neg x) (IEEE.neg y) (IEEE.neg z)) →
  IEEE.binary32 x = true → IEEE.binary32 y = true → IEEE.binary32 z = true →
  IEEE.is_finite x = true → IEEE.is_finite y = true → IEEE.is_finite z = true →
  ∃ mp,
    IEEE.mat4.multiply out m inv h = Some (out, <[out := mp]> h) ∧
    same_numbers mp (translation (IEEE.of_Z 0) (IEEE.of_Z 0) (IEEE.of_Z 0)).
Proof.
  intros Hm Hinv Hout Lo Hmi Bx By Bz Fx Fy Fz.
  eexists. split; [by eapply multiply_frun|].
  assert (length mi = 16%nat) as Li by (by apply Forall2_length in Hmi).
  explicit_numbers Li.
  repeat match goal with
  | H : same_numbers (_ :: _) (_ :: _) |- _ =>
      apply Forall2_cons in H as [? H]
  end.
  clear Hmi.
  rewrite of_Z_0, of_Z_1 in *.
  repeat match goal with
  | H : IEEE.strict_eq _ (S754_zero _) = true |- _ => apply strict_eq_zero in H as [? ->]
  | H : IEEE.strict_eq _ float_one = true |- _ => apply strict_eq_finite in H as ->
  end.
  cbv zeta. unfold IEEE.item.
  cbn [fmap list_fmap lookup list_lookup default from_option Datatypes.id Nat.add Nat.mul].
  entries.
  all: binary32_cases x Bx Fx; binary32_cases y By Fy; binary32_cases z Bz Fz;
    cbn [IEEE.neg SFopp] in *;
    repeat match goal with
    | H : IEEE.strict_eq _ (S754_zero _) = true |- _ => apply strict_eq_zero in H as [? ->]
    | H : IEEE.strict_eq _ (S754_finite _ _ _) = true |- _ => apply strict_eq_finite in H as ->
    end;
    fsimpl; try reflexivity.
Qed.




(** ** C5: the clip convention of [perspective] *)




(** ** C6: [lookAt] in the degenerate cases *)

Lemma lookAt_z_default (host : IEEE.Math) (out : loc)
    (mo : list spec_float) (ex ey ez ux uy uz : spec_float)
    (h : gmap positive (list spec_float)) :
  h !! out = Some mo → length mo = 16%nat →
  IEEE.is_finite ex = true → IEEE.is_finite ey = true → IEEE.is_finite ez = true →
  ∃ m,
    IEEE.mat4.lookAt host out [ex; ey; ez] [ex; ey; ez] [ux; uy; uz] h =
      Some (out, <[out := m]> h) ∧
    length m = 16%nat ∧
    m !! 2%nat = Some (IEEE.of_Z 0) ∧ m !! 6%nat = Some (IEEE.of_Z 0) ∧
    m !! 10%nat = Some (IEEE.of_Z 1) ∧
    m !! 3%nat = Some (IEEE.of_Z 0) ∧ m !! 7%nat = Some (IEEE.of_Z 0) ∧
    m !! 11%nat = Some (IEEE.of_Z 0) ∧ m !! 15%nat = Some (IEEE.of_Z 1).
Proof.
  intros Ho Lo Hx Hy Hz. explicit_numbers Lo.
  unfold IEEE.mat4.lookAt. cbv zeta. unfold IEEE.item.
  cbn [lookup list_lookup default from_option Datatypes.id].
  rewrite !sub_self by assumption. rewrite hypot_of_zeros.
  cbn [IEEE.is_zero]. cbv beta iota.
  match goal with |- context [IEEE.is_zero ?len] => destruct (IEEE.is_zero len) end;
    cbv beta iota; frun; cbn [insert list_insert];
    (eexists; split; [reflexivity|]); by repeat split.
Qed.

Lemma lookAt_both_defaults (host : IEEE.Math) (out : loc)
    (mo : list spec_float) (ex ey ez ux uy uz : spec_float)
    (h : gmap positive (list spec_float)) :
  h !! out = Some mo → length mo = 16%nat →
  IEEE.is_finite ex = true → IEEE.is_finite ey = true → IEEE.is_finite ez = true →
  IEEE.binary64 ex = true → IEEE.binary64 ey = true → IEEE.binary64 ez = true →
  IEEE.is_zero ux = true → IEEE.is_zero uy = true → IEEE.is_finite uz = true →
  ∃ m,
    IEEE.mat4.lookAt host out [ex; ey; ez] [ex; ey; ez] [ux; uy; uz] h =
      Some (out, <[out := m]> h) ∧
    Forall2 (λ x y, IEEE.strict_eq x y = true) m
      [IEEE.of_Z 1; IEEE.of_Z 0; IEEE.of_Z 0; IEEE.of_Z 0;
       IEEE.of_Z 0; IEEE.of_Z 1; IEEE.of_Z 0; IEEE.of_Z 0;
       IEEE.of_Z 0; IEEE.of_Z 0; IEEE.of_Z 1; IEEE.of_Z 0;
       IEEE.Math_fround (IEEE.neg ex); IEEE.Math_fround (IEEE.neg ey);
       IEEE.Math_fround (IEEE.neg ez); IEEE.of_Z 1].
Proof.
  intros Ho Lo Hx Hy Hz Bx By Bz Hux Huy Huz. explicit_numbers Lo.
  unfold IEEE.binary64, valid_binary in Bx, By, Bz.
  destruct ux as [sux| | |]; try discriminate Hux.
  destruct uy as [suy| | |]; try discriminate Huy.
  finite_cases ex Hx; finite_cases ey Hy; finite_cases ez Hz; finite_cases uz Huz.
  all: unfold IEEE.mat4.lookAt; cbv zeta; unfold IEEE.item;
    cbn [lookup list_lookup default from_option Datatypes.id];
    fsimpl; frun; cbn [insert list_insert];
    (eexists; split; [reflexivity|]).
  all: repeat (apply List.Forall2_cons); try apply List.Forall2_nil.
  all: cbn [IEEE.neg SFopp]; try reflexivity.
  all: try (apply strict_eq_refl, fround_not_NaN; reflexivity).
Qed.


(** And [up] parallel to the view direction is not detected where the
    quotients are rounded.  From (3, 4, 0) towards the origin, with [up] =
    (3, 4, 0): the z axis is (3/5, 4/5, 0) rounded, [3 * z1] and [4 * z0]
    differ by one unit in the last place, and the cross product is
    (0, 0, 2^-51), not zero.  No default is substituted: the x axis is that
    vector divided by its length, (0, 0, 1).  ([Math.hypot] of the example
    host is exact at (3, 4, 0) and at (0, 0, 2^-51).) *)
Example lookAt_parallel_up_is_not_detected :
  let eye := [IEEE.of_Z 3; IEEE.of_Z 4; IEEE.of_Z 0] in
  let center := [IEEE.of_Z 0; IEEE.of_Z 0; IEEE.of_Z 0] in
  let up := [IEEE.of_Z 3; IEEE.of_Z 4; IEEE.of_Z 0] in
  ∃ m h,
    IEEE.mat4.lookAt IEEE.example_host 1 eye center up (IEEE.out_and []) =
      Some (1%positive, h) ∧
    h !! 1%positive = Some m ∧
    (IEEE.item m 0, IEEE.item m 4, IEEE.item m 8) =
      (IEEE.of_Z 0, IEEE.of_Z 0, IEEE.of_Z 1) ∧
    IEEE.to_R (IEEE.item m 13) = - (1 / 2 ^ 51).
Proof.
  intros eye center up.
  eexists _, _. split; [vm_compute; reflexivity|]. split; [vm_compute; reflexivity|].
  split; [vm_compute; reflexivity|].
  to_R_values. lra.
Qed.



(** ** C7: [Mesh.update] *)

(** The object [mat4] of math.js has no property [identity]. *)
Lemma mat4_has_no_identity : get_property mat4_object "identity" = None.
Proof. reflexivity. Qed.

(** Whatever the mesh, [update] advances the rotation and then throws at
    [mat4.identity(..)]: the three rotations after it are never reached. *)
Lemma update_throws (this : Mesh) (r0 r1 r2 s0 s1 s2 : R) (h : heap) :
  h !! rotation this = Some [r0; r1; r2] →
  h !! rotationSpeed this = Some [s0; s1; s2] →
  rotation this ≠ rotationSpeed this →
  Mesh_.update this h =
    Throw (TypeError "mat4.identity is not a function")
          (<[rotation this := [r0 + s0; r1 + s1; r2 + s2]]> h).
Proof.
  intros Hr Hs Hne. unfold Mesh_.update. run. reflexivity.
Qed.

(** C7.  A mesh as the constructor leaves it, with the default rotation
    speed (0.01, 0.01, 0): one call of [update] advances the rotation and
    throws a [TypeError], because [mat4] has no [identity]; the model matrix
    is still the identity matrix, and so it is after any number of calls,
    while building the matrix directly with [rotateX], [rotateY], [rotateZ]
    from the identity at the angles (0.01, 0.01, 0) gives a matrix whose
    entry 5 is [cos 0.01], which is not the 1 of the identity matrix. *)
Theorem update_throws_before_rebuilding_model :
  let this := {| rotationSpeed := 1%positive; rotation := 2%positive; model := 3%positive |} in
  let h : heap := {[ 1%positive := [1 / 100; 1 / 100; 0];
                     2%positive := [0; 0; 0];
                     3%positive := identity_matrix ]} in
  let h1 : heap := <[2%positive := [0 + 1 / 100; 0 + 1 / 100; 0 + 0]]> h in
  Mesh_.constructor None ∅ = Ret this h ∧
  Mesh_.update this h = Throw (TypeError "mat4.identity is not a function") h1 ∧
  (∀ n, Mesh_.update_times (S n) this h =
          Throw (TypeError "mat4.identity is not a function") h1) ∧
  h1 !! model this = Some identity_matrix ∧
  (∃ m h2, (mat4.rotateX 3 3 (1 / 100) ≫= λ _,
            mat4.rotateY 3 3 (1 / 100) ≫= λ _,
            mat4.rotateZ 3 3 0) h = Ret 3%positive h2 ∧
           h2 !! 3%positive = Some m ∧
           nth 5 m 0 = cos (1 / 100) ∧
           nth 5 m 0 ≠ nth 5 identity_matrix 0).
Proof.
  intros this h h1.
  assert (Mesh_.update this h = Throw (TypeError "mat4.identity is not a function") h1)
    as Hupdate.
  { apply (update_throws this 0 0 0 (1 / 100) (1 / 100) 0 h); done. }
  split; [|split; [exact Hupdate|split; [|split]]].
  - unfold Mesh_.constructor, mat4.create. vm_compute. reflexivity.
  - intros n. cbn [Mesh_.update_times]. unfold mbind, M_bind. by rewrite Hupdate.
  - reflexivity.
  - unfold mbind at 1, M_bind at 1.
    rewrite (rotateX_run 3 3 (1 / 100) identity_matrix identity_matrix h) by done.
    unfold mbind at 1, M_bind at 1.
    erewrite rotateY_run; [| apply lookup_insert_eq | apply lookup_insert_eq | done | done].
    erewrite rotateZ_run; [| apply lookup_insert_eq | apply lookup_insert_eq | done | done].
    eexists _, _. split; [reflexivity|]. split; [apply lookup_insert_eq|].
    cbn -[Rplus Rmult Rminus Rdiv cos sin].
    rewrite cos_0, sin_0.
    match goal with |- ?e = _ ∧ _ =>
      assert (e = cos (1 / 100)) as Hentry by ring; rewrite Hentry
    end.
    split; [reflexivity|]. intros Hc.
    pose proof (sin2_cos2 (1 / 100)) as Hsc. rewrite Hc in Hsc. unfold Rsqr in Hsc.
    assert (0 < sin (1 / 100)) as Hsin.
    { apply sin_gt_0; [lra|]. pose proof PI2_1. lra. }
    nra.
Qed.

(** ** C8: [createEngine] *)

Section loader_facts.
Variable import : string → option js_module.
Variable window : option (option js_module).
Variable init_succeeds : engine → js_module → bool.

(** One turn against the attempt the specification describes: the same
    events and the same outcome, except in the turn of [playcanvas] on a host
    where it cannot be imported and [window] is not defined. *)
Lemma candidate_attempt (name : string) :
  candidate import window init_succeeds name =
    if bool_decide (name = "playcanvas") && window_missing import window then
      ([Import "playcanvas"], Thrown (ReferenceError "window is not defined"))
    else
      ((attempt import window init_succeeds name).1,
       match (attempt import window init_succeeds name).2 with
       | Some hd => Returned hd
       | None => Fell_through
       end).
Proof.
  unfold candidate, attempt, loaded, specifiers, engine_for, window_missing,
    if_loaded, or_else, tryImport, initThree, initBabylon, initPlaycanvas.
  repeat case_decide;
    repeat match goal with H : _ ∨ _ |- _ => destruct H as [?|?] end;
    subst; try discriminate; try (exfalso; tauto);
    rewrite ?bool_decide_eq_false_2 by assumption;
    cbn [bool_decide decide_rel andb loads fst snd mjoin].
  all: repeat match goal with
       | |- context [import ?s] => destruct (import s) eqn:?
       | |- context [init_succeeds ?e ?m] => destruct (init_succeeds e m) eqn:?
       | |- context [match window with _ => _ end] => destruct window as [[?|]|] eqn:?
       | |- context [if ?b then _ else _] => destruct b eqn:?
       | _ => progress cbn
       end; try done.
Qed.

Lemma for_of_attempts (prefer : list string) :
  if reaches_missing_window import window init_succeeds prefer then
    ∃ pre post,
      prefer = pre ++ "playcanvas" :: post ∧
      Forall (λ n, (attempt import window init_succeeds n).2 = None) pre ∧
      for_of import window init_succeeds prefer =
        (flat_map (λ n, (attempt import window init_succeeds n).1) pre ++
           [Import "playcanvas"],
         Thrown (ReferenceError "window is not defined"))
  else
    for_of import window init_succeeds prefer =
      ((first_success import window init_succeeds prefer).1,
       match (first_success import window init_succeeds prefer).2 with
       | inl hd => Returned hd
       | inr _ => Fell_through
       end).
Proof.
  induction prefer as [|name rest IH]; [reflexivity|].
  cbn [reaches_missing_window for_of first_success]. rewrite candidate_attempt.
  destruct (bool_decide (name = "playcanvas") && window_missing import window) eqn:Htrap.
  - apply andb_prop in Htrap as [Hname _]. apply bool_decide_eq_true in Hname as ->.
    exists [], rest. by repeat split.
  - destruct (attempt import window init_succeeds name) as [t [hd|]] eqn:Hattempt;
      cbn [fst snd]; [done|].
    destruct (reaches_missing_window import window init_succeeds rest).
    + destruct IH as (pre & post & -> & Hpre & ->).
      exists (name :: pre), post. split; [done|]. split.
      * constructor; [by rewrite Hattempt | done].
      * cbn [flat_map fst snd]. rewrite Hattempt. cbn [fst]. by rewrite app_assoc.
    + rewrite IH. cbn [fst snd].
      by destruct (first_success import window init_succeeds rest) as [t' [hd|e]].
Qed.

Lemma first_success_error (prefer : list string) (e : js_error) :
  (first_success import window init_succeeds prefer).2 = inr e →
  e = Error no_engine_message.
Proof.
  induction prefer as [|name rest IH]; cbn [first_success].
  - by intros [= <-].
  - destruct (attempt import window init_succeeds name) as [t [hd|]]; [done|]. exact IH.
Qed.
End loader_facts.

(** C8.  [createEngine] against the loader the specification describes
    ([first_success]: every candidate in list order, its load and then its
    initialisation, the handle of the first candidate for which both succeed,
    the error "No supported 3D engine available. ..." when none does).  For
    every host and every preference list (the default order when none is
    given) the two agree, events and result, unless the loop reaches the turn
    of [playcanvas] on a host where playcanvas cannot be imported and no global
    [window] is defined: there the failed load is not passed over, the read of
    [window] throws outside every [try], and [createEngine] ends with that
    [ReferenceError], after the attempts of the names before and the one
    import. *)
Theorem createEngine_first_success_unless_window_is_missing
    (import : string → option js_module) (window : option (option js_module))
    (init_succeeds : engine → js_module → bool)
    (options_prefer : option (list string)) :
  let prefer := default DEFAULT_ORDER options_prefer in
  let run := createEngine import window init_succeeds options_prefer in
  if reaches_missing_window import window init_succeeds prefer then
    ∃ pre post,
      prefer = pre ++ "playcanvas" :: post ∧
      Forall (λ n, (attempt import window init_succeeds n).2 = None) pre ∧
      run = (flat_map (λ n, (attempt import window init_succeeds n).1) pre ++
               [Import "playcanvas"],
             inr (ReferenceError "window is not defined"))
  else run = first_success import window init_succeeds prefer.
Proof.
  intros prefer run. unfold run, createEngine. fold prefer.
  pose proof (for_of_attempts import window init_succeeds prefer) as Hrun.
  destruct (reaches_missing_window import window init_succeeds prefer).
  - destruct Hrun as (pre & post & Hsplit & Hpre & ->). by exists pre, post.
  - rewrite Hrun.
    pose proof (first_success_error import window init_succeeds prefer) as Herr.
    destruct (first_success import window init_succeeds prefer) as [t [hd|e]];
      cbn [fst snd] in *; [done|].
    by rewrite (Herr e eq_refl).
Qed.

(** The host of a worker, with no [window]: playcanvas cannot be imported,
    three can, and is second in the list.  The specification's loader goes on
    to three and returns its handle; [createEngine] throws. *)
Example createEngine_throws_where_window_is_missing :
  let m3 := {| exports := ["WebGLRenderer"; "Scene"; "PerspectiveCamera"];
               pc_member := None |} in
  let import := λ spec, if decide (spec = "three") then Some m3 else None in
  createEngine import None (λ _ _, true) (Some ["playcanvas"; "three"]) =
    ([Import "playcanvas"], inr (ReferenceError "window is not defined")) ∧
  first_success import None (λ _ _, true) ["playcanvas"; "three"] =
    ([Import "playcanvas"; Import "three"; Init three m3],
     inl {| libName := "three"; lib := m3 |}).
Proof. split; reflexivity. Qed.

(** Three runs on a page.  Only [babylonjs] can be imported: the default
    order tries three, then both Babylon specifiers, and returns the Babylon
    handle. *)
Example createEngine_falls_back_to_babylon :
  let m := {| exports := ["Engine"; "Scene"]; pc_member := None |} in
  let import := λ spec, if decide (spec = "babylonjs") then Some m else None in
  createEngine import (Some None) (λ _ _, true) None =
    ([Import "three"; Import "@babylonjs/core"; Import "babylonjs"; Init babylon m],
     inl {| libName := "babylon"; lib := m |}).
Proof. reflexivity. Qed.

(** three loads but its initialisation throws; PlayCanvas is not importable
    but is there as the global [window.pc]. *)
Example createEngine_swallows_failed_init :
  let m3 := {| exports := ["WebGLRenderer"]; pc_member := None |} in
  let mpc := {| exports := ["Application"]; pc_member := None |} in
  let import := λ spec, if decide (spec = "three") then Some m3 else None in
  let init_succeeds := λ e (_ : js_module),
    match e with three => false | _ => true end in
  createEngine import (Some (Some mpc)) init_succeeds (Some ["three"; "playcanvas"]) =
    ([Import "three"; Init three m3; Import "playcanvas"; Init playcanvas mpc],
     inl {| libName := "playcanvas"; lib := mpc |}).
Proof. reflexivity. Qed.

(** Nothing can be loaded. *)
Example createEngine_no_engine :
  createEngine (λ _, None) (Some None) (λ _ _, true) None =
    ([Import "three"; Import "@babylonjs/core"; Import "babylonjs"; Import "playcanvas"],
     inr (Error no_engine_message)).
Proof. reflexivity. Qed.

(** ** C9 and C10: the block registry *)

(** C9.  In each of the three adapters, [addBlock] at a coordinate whose key
    is in the registry returns the block registered there and changes
    nothing: not the registry, and nothing else of the adapter. *)
Theorem addBlock_returns_existing_block
    (blockSize : R) (texture_loads asset_ready : string → bool)
    (x y z : Z) (s : settings) (st : adapter) (b : block) :
  blocks st !! blockKey x y z = Some b →
  Three.addBlock blockSize texture_loads x y z s st = (b, st) ∧
  Babylon.addBlock blockSize texture_loads x y z s st = (b, st) ∧
  Playcanvas.addBlock blockSize asset_ready x y z s st = (Some b, st).
Proof.
  intros Hb. unfold Three.addBlock, Babylon.addBlock, Playcanvas.addBlock.
  by rewrite Hb.
Qed.

Lemma addBlock_returns_existing_block_witness :
  let b := {| oid := 0; position := block_position 1 0 0 0;
              block_material := Colored 0x8B4513 |} in
  let st := {| attached := [b]; blocks := {[ blockKey 0 0 0 := b ]};
               disposed := []; assets := []; next_oid := 1 |} in
  let s := {| texture := Some "/assets/textures/grass.png"; color := None |} in
  Three.addBlock 1 (λ _, true) 0 0 0 s st = (b, st) ∧
  Babylon.addBlock 1 (λ _, true) 0 0 0 s st = (b, st) ∧
  Playcanvas.addBlock 1 (λ _, true) 0 0 0 s st = (Some b, st).
Proof.
  intros b st s.
  apply (addBlock_returns_existing_block 1 (λ _, true) (λ _, true) 0 0 0 s st b).
  apply lookup_singleton_eq.
Defined.

(** Adding twice at a free coordinate: the second call returns the block of
    the first and changes nothing, whatever its settings. *)
Lemma addBlock_twice (blockSize : R) (texture_loads : string → bool)
    (x y z : Z) (s s' : settings) (st : adapter) :
  let r := Three.addBlock blockSize texture_loads x y z s st in
  Three.addBlock blockSize texture_loads x y z s' r.2 = r ∧
  let r := Babylon.addBlock blockSize texture_loads x y z s st in
  Babylon.addBlock blockSize texture_loads x y z s' r.2 = r.
Proof.
  unfold Three.addBlock, Babylon.addBlock.
  destruct (blocks st !! blockKey x y z) as [b|] eqn:Hb; cbn [fst snd blocks].
  - by rewrite Hb.
  - by rewrite !lookup_insert_eq.
Qed.

Lemma removeBlock_cases (remove : Z → Z → Z → adapter → bool * adapter)
    (x y z : Z) (st : adapter) :
  (∀ m, blocks st !! blockKey x y z = Some m →
        (remove x y z st).1 = true ∧
        blocks (remove x y z st).2 = delete (blockKey x y z) (blocks st)) →
  (blocks st !! blockKey x y z = None → remove x y z st = (false, st)) →
  removes_exactly_when_present remove x y z st.
Proof.
  intros Hsome Hnone. unfold removes_exactly_when_present.
  destruct (blocks st !! blockKey x y z) as [m|] eqn:Hm.
  - destruct (Hsome m eq_refl) as [Htrue Hdel]. rewrite Htrue, Hdel.
    repeat split; [by eexists | apply lookup_delete_eq | discriminate].
  - rewrite (Hnone eq_refl). cbn. repeat split; try discriminate.
    intros [? [=]].
Qed.

(** C10.  In each of the three adapters, [removeBlock] returns [true]
    exactly when a block is registered at the coordinate, and then the
    coordinate's key is out of the registry, which is otherwise as before;
    when none is registered it returns [false] and the adapter is
    unchanged. *)
Theorem removeBlock_true_iff_registered (x y z : Z) (st : adapter) :
  removes_exactly_when_present Three.removeBlock x y z st ∧
  removes_exactly_when_present Babylon.removeBlock x y z st ∧
  removes_exactly_when_present Playcanvas.removeBlock x y z st.
Proof.
  split; [|split]; apply removeBlock_cases;
    unfold Three.removeBlock, Babylon.removeBlock, Playcanvas.removeBlock;
    first [intros m Hm; by rewrite Hm | intros Hm; by rewrite Hm].
Qed.

(** A block added and removed again, then removed once more. *)
Example removeBlock_after_addBlock :
  let st0 := {| attached := []; blocks := ∅; disposed := []; assets := []; next_oid := 0 |} in
  let s := {| texture := None; color := None |} in
  let st1 := (Three.addBlock 1 (λ _, true) 1 2 (-3) s st0).2 in
  blockKey 1 2 (-3) = "1,2,-3" ∧
  blocks st1 !! "1,2,-3" =
    Some {| oid := 0; position := block_position 1 1 2 (-3);
            block_material := Colored 0x8B4513 |} ∧
  (Three.removeBlock 1 2 (-3) st1).1 = true ∧
  blocks (Three.removeBlock 1 2 (-3) st1).2 = ∅ ∧
  Three.removeBlock 1 2 (-3) (Three.removeBlock 1 2 (-3) st1).2 =
    (false, (Three.removeBlock 1 2 (-3) st1).2).
Proof.
  intros st0 s st1. split; [reflexivity|].
  assert (blocks st1 !! "1,2,-3" =
          Some {| oid := 0; position := block_position 1 1 2 (-3);
                  block_material := Colored 0x8B4513 |}) as Hb.
  { unfold st1, Three.addBlock. cbn [blocks st0]. rewrite lookup_empty.
    cbn [snd blocks]. change (blockKey 1 2 (-3)) with "1,2,-3".
    by rewrite lookup_insert_eq. }
  split; [exact Hb|].
  unfold Three.removeBlock. change (blockKey 1 2 (-3)) with "1,2,-3". rewrite Hb.
  cbn [fst snd blocks].
  assert (delete "1,2,-3" (blocks st1) = ∅) as Hd.
  { unfold st1, Three.addBlock. cbn [blocks st0]. rewrite lookup_empty.
    cbn [snd blocks]. change (blockKey 1 2 (-3)) with "1,2,-3".
    rewrite delete_insert_eq. apply delete_empty. }
  rewrite Hd, lookup_empty. by repeat split.
Qed.


(** * Further properties of the code *)

#[local] Set Warnings "-clear-no-such-hyp".

(** ** The matrix product *)

Lemma colmajor_product_id_l (a : list R) :
  length a = 16%nat → colmajor_product identity_matrix a = a.
Proof.
  intros La. explicit16 La.
  unfold colmajor_product, entry, identity_matrix. cbn -[Rplus Rmult]. entrywise ring.
Qed.

Lemma colmajor_product_id_r (a : list R) :
  length a = 16%nat → colmajor_product a identity_matrix = a.
Proof.
  intros La. explicit16 La.
  unfold colmajor_product, entry, identity_matrix. cbn -[Rplus Rmult]. entrywise ring.
Qed.



(** ** Allocation: [create] and [clone] *)

Lemma run_alloc {B} (m : list R) (k : loc → M B) (h : heap) :
  (alloc m ≫= k) h = k (fresh (dom h)) (<[fresh (dom h) := m]> h).
Proof. reflexivity. Qed.

Lemma fresh_unused (h : heap) : h !! fresh (dom h) = None.
Proof. apply not_elem_of_dom, is_fresh. Qed.

Lemma create_fresh_identity_aux (h : heap) :
  ∃ l, mat4.create h = Ret l (<[l := identity_matrix]> h) ∧ h !! l = None.
Proof.
  exists (fresh (dom h)). split; [|apply fresh_unused].
  unfold mat4.create. rewrite run_alloc.
  cbn [replicate]. run. reflexivity.
Qed.

(** X3.  [create] returns a new array that holds the identity matrix, and
    leaves every array of the heap as it was. *)
Theorem create_fresh_identity (h : heap) :
  ∃ l, mat4.create h = Ret l (<[l := identity_matrix]> h) ∧ h !! l = None.
Proof.
  exists (fresh (dom h)). split; [|apply fresh_unused].
  unfold mat4.create. rewrite run_alloc.
  cbn [replicate]. run. reflexivity.
Qed.

(** X4.  [clone] returns a new array with the entries of [a]; a later write
    into the clone does not reach [a]. *)
Theorem clone_is_independent (a : loc) (ma : list R) (i : nat) (v : R) (h : heap) :
  h !! a = Some ma →
  ∃ l h',
    (mat4.clone a ≫= λ l, store l i v ≫= λ _, mret l) h = Ret l h' ∧
    l ≠ a ∧ h !! l = None ∧
    h' !! l = Some (<[i := v]> ma) ∧ h' !! a = Some ma.
Proof.
  intros Ha. pose proof (fresh_unused h) as Hfresh.
  assert (fresh (dom h) ≠ a) as Hne by (intros Heq; rewrite Heq in Hfresh; congruence).
  exists (fresh (dom h)), (<[fresh (dom h) := <[i := v]> ma]> h).
  split; [|split; [done|split; [done|split]]].
  - unfold mbind at 1, M_bind at 1, mat4.clone. rewrite Ha. unfold alloc.
    erewrite run_store by apply lookup_insert_eq. by rewrite insert_twice.
  - apply lookup_insert_eq.
  - by rewrite lookup_insert_ne.
Qed.

Lemma clone_is_independent_witness :
  let h : heap := {[ 1%positive := identity_matrix ]} in
  ∃ l h',
    (mat4.clone 1 ≫= λ l, store l 12 5 ≫= λ _, mret l) h = Ret l h' ∧
    l ≠ 1%positive ∧ h !! l = None ∧
    h' !! l = Some (<[12%nat := 5]> identity_matrix) ∧ h' !! 1%positive = Some identity_matrix.
Proof.
  intros h. apply (clone_is_independent 1 identity_matrix 12 5 h). reflexivity.
Defined.

(** X5.  [copy] between two matrices makes [out] hold the entries of [a] and
    leaves [a] alone; copying a matrix onto itself changes nothing. *)
Theorem copy_makes_equal (out a : loc) (mo ma : list R) (h : heap) :
  h !! out = Some mo → h !! a = Some ma →
  length mo = 16%nat → length ma = 16%nat →
  ∃ h', mat4.copy out a h = Ret out h' ∧
        h' !! out = Some ma ∧ h' !! a = Some ma ∧
        (out = a → h' = h) ∧
        (∀ l, l ≠ out → h' !! l = h !! l).
Proof.
  intros Ho Ha Lo La. exists (<[out := ma]> h).
  split; [by apply (copy_run out a mo ma)|].
  split; [apply lookup_insert_eq|]. split; [|split].
  - destruct (decide (out = a)) as [->|Hne];
      [apply lookup_insert_eq | by rewrite lookup_insert_ne].
  - intros ->. by apply insert_id.
  - intros l Hl. by rewrite lookup_insert_ne.
Qed.

Lemma copy_makes_equal_witness :
  let h : heap := {[ 1%positive := replicate 16 0; 2%positive := identity_matrix ]} in
  ∃ h', mat4.copy 1 2 h = Ret 1%positive h' ∧
        h' !! 1%positive = Some identity_matrix ∧ h' !! 2%positive = Some identity_matrix.
Proof.
  intros h.
  destruct (copy_makes_equal 1 2 (replicate 16 0) identity_matrix h)
    as (h' & Hrun & Ho & Ha & _); try reflexivity.
  by exists h'.
Defined.

(** X6.  [copy] from an array longer than [out] throws a [RangeError] and
    writes nothing; from a shorter one it overwrites the front of [out] and
    keeps the rest. *)
Theorem copy_length_mismatch (out a : loc) (mo ma : list R) (h : heap) :
  h !! out = Some mo → h !! a = Some ma →
  ((length mo < length ma)%nat → ∃ msg, mat4.copy out a h = Throw (RangeError msg) h) ∧
  ((length ma < length mo)%nat →
     ∃ m, mat4.copy out a h = Ret out (<[out := m]> h) ∧
          length m = length mo ∧ take (length ma) m = ma ∧
          drop (length ma) m = drop (length ma) mo).
Proof.
  intros Ho Ha. unfold mat4.copy. rewrite Ho, Ha. split; intros Hlen.
  - rewrite decide_False by lia. by eexists.
  - rewrite decide_True by lia. eexists. split; [reflexivity|].
    split; [|split].
    + rewrite length_app, length_drop. lia.
    + by rewrite take_app_length.
    + by rewrite drop_app_length.
Qed.

Lemma copy_length_mismatch_witness :
  let h : heap := {[ 1%positive := [0; 0; 0]; 2%positive := identity_matrix ]} in
  (∃ msg, mat4.copy 1 2 h = Throw (RangeError msg) h) ∧
  (∃ m, mat4.copy 2 1 h = Ret 2%positive (<[2%positive := m]> h) ∧
        length m = 16%nat ∧ take 3 m = [0; 0; 0]).
Proof.
  intros h. split.
  - apply (copy_length_mismatch 1 2 [0; 0; 0] identity_matrix h); try reflexivity.
    cbn; lia.
  - destruct (copy_length_mismatch 2 1 identity_matrix [0; 0; 0] h) as [_ Hshort];
      try reflexivity.
    destruct Hshort as (m & Hrun & Hlen & Htake & _); [cbn; lia|].
    exists m. by repeat split.
Defined.

(** ** The camera *)

(** X19.  The [Camera] constructor makes two new, different arrays and
    leaves the arrays that were there alone: [view] holds the identity
    matrix, [projection] what [perspective] writes (in particular
    [-1] at index 11 and [0] at index 15), and [position] is (0, 0, 5). *)
Theorem camera_constructor (host : IEEE.Math) (fov aspect near far : spec_float)
    (h : gmap positive (list spec_float)) :
  let f := IEEE.div (IEEE.of_Z 1) (IEEE.Math_tan host (IEEE.div fov (IEEE.of_Z 2))) in
  let nf := IEEE.div (IEEE.of_Z 1) (IEEE.sub near far) in
  let o := IEEE.of_Z 0 in
  ∃ cam h',
    IEEE.Camera_constructor host fov aspect near far h = Some (cam, h') ∧
    h !! IEEE.projection cam = None ∧ h !! IEEE.view cam = None ∧
    IEEE.projection cam ≠ IEEE.view cam ∧
    h' !! IEEE.projection cam = Some (IEEE.Math_fround <$>
      [IEEE.div f aspect; o; o; o;
       o; f; o; o;
       o; o; IEEE.mul (IEEE.add far near) nf; IEEE.neg (IEEE.of_Z 1);
       o; o; IEEE.mul (IEEE.mul (IEEE.mul (IEEE.of_Z 2) far) near) nf; o]) ∧
    IEEE.position cam = [IEEE.of_Z 0; IEEE.of_Z 0; IEEE.of_Z 5] ∧
    h' !! IEEE.view cam = Some (translation o o o) ∧
    (∀ l, is_Some (h !! l) → h' !! l = h !! l).
Proof.
  intros f nf o. unfold IEEE.Camera_constructor.
  unfold mbind at 1, IEEE.M_bind at 1. rewrite create_frun.
  set (l1 := fresh (dom h)). pose proof (fresh_not_in h) as Hf1. fold l1 in Hf1.
  clearbody l1.
  unfold mbind at 1, IEEE.M_bind at 1.
  rewrite (perspective_frun host l1 (translation o o o) fov aspect near far
             (<[l1 := translation o o o]> h) (lookup_insert_eq _ _ _) eq_refl).
  rewrite insert_insert_eq.
  match goal with |- context [<[l1 := ?m]> h] => set (h1 := <[l1 := m]> h) end.
  unfold mbind at 1, IEEE.M_bind at 1. rewrite create_frun.
  set (l2 := fresh (dom h1)). pose proof (fresh_not_in h1) as Hf2. fold l2 in Hf2.
  clearbody l2.
  assert (l1 ≠ l2) as H12.
  { intros ->. unfold h1 in Hf2. by rewrite lookup_insert_eq in Hf2. }
  assert (h !! l2 = None) as Hh2.
  { unfold h1 in Hf2. by rewrite lookup_insert_ne in Hf2. }
  eexists _, _. split; [reflexivity|].
  cbn [IEEE.projection IEEE.position IEEE.view].
  split; [done|]. split; [done|]. split; [done|]. split.
  - rewrite lookup_insert_ne by done. unfold h1. apply lookup_insert_eq.
  - split; [done|]. split; [apply lookup_insert_eq|].
    intros l [m Hl]. unfold h1.
    rewrite !lookup_insert_ne; [done| |]; intros ->; congruence.
Qed.

(** ** The render loop of the three.js adapter *)

Lemma loop_invariant (actions : list ThreeLoop.action) :
  let st := ThreeLoop.run actions in
  ThreeLoop.scheduled st =
    match ThreeLoop.raf st with Some id => {[id]} | None => ∅ end ∧
  (∀ id, id ∈ ThreeLoop.scheduled st → (id < ThreeLoop.next_handle st)%positive).
Proof.
  unfold ThreeLoop.run. induction actions as [|a actions IH] using rev_ind.
  - cbn. split; [done|]. intros id. set_solver.
  - rewrite foldl_snoc. cbv zeta in IH.
    set (st := foldl (λ st a, ThreeLoop.act a st) ThreeLoop.initial actions) in *.
    destruct IH as [Hs Hlt]. clearbody st.
    assert (ThreeLoop.next_handle st ∉ ThreeLoop.scheduled st) as Hfresh.
    { intros Hin. apply Hlt in Hin. lia. }
    destruct a as [| |id]; cbn [ThreeLoop.act].
    + unfold ThreeLoop.start. destruct (ThreeLoop.raf st) as [id|] eqn:Hraf.
      * rewrite Hraf. by split.
      * cbn. rewrite Hs. split; [set_solver|].
        intros id. rewrite elem_of_union, elem_of_singleton. intros [->|Hin]; [lia|set_solver].
    + unfold ThreeLoop.stop. destruct (ThreeLoop.raf st) as [id|] eqn:Hraf.
      * cbn. rewrite Hs. split; [set_solver|]. intros id'. set_solver.
      * rewrite Hraf. by split.
    + unfold ThreeLoop.frame. case_decide as Hin.
      * cbn. rewrite Hs in *. destruct (ThreeLoop.raf st) as [id'|]; [|set_solver].
        split; [set_solver|].
        intros id''. rewrite elem_of_union, elem_of_singleton. intros [->|Hin']; [lia|].
        set_solver.
      * by split.
Qed.

(** X22.  Whatever sequence of [start()], [stop()] and frames the adapter
    goes through, the browser holds at most one frame callback of it, the
    one [raf] names: [start] never sets up a second loop.  Right after a
    [stop()] it holds none, so no further frame renders. *)
Theorem render_loop_never_doubles (actions : list ThreeLoop.action) :
  let st := ThreeLoop.run actions in
  let stopped := ThreeLoop.run (actions ++ [ThreeLoop.Stop]) in
  ThreeLoop.scheduled st =
    match ThreeLoop.raf st with Some id => {[id]} | None => ∅ end ∧
  ThreeLoop.start (ThreeLoop.start st) = ThreeLoop.start st ∧
  ThreeLoop.raf stopped = None ∧ ThreeLoop.scheduled stopped = ∅ ∧
  (∀ id, ThreeLoop.frame id stopped = stopped).
Proof.
  intros st stopped.
  destruct (loop_invariant actions) as [Hs _]. fold st in Hs.
  destruct (loop_invariant (actions ++ [ThreeLoop.Stop])) as [Hs' _]. fold stopped in Hs'.
  assert (ThreeLoop.raf stopped = None) as Hraf.
  { unfold stopped, ThreeLoop.run. rewrite foldl_snoc. cbn. unfold ThreeLoop.stop.
    fold (ThreeLoop.run actions). fold st. by destruct (ThreeLoop.raf st) eqn:E. }
  rewrite Hraf in Hs'. clearbody st stopped.
  split; [done|]. split; [|split; [done|split; [done|]]].
  - unfold ThreeLoop.start. destruct (ThreeLoop.raf st) eqn:E; [by rewrite E | done].
  - intros id. unfold ThreeLoop.frame. rewrite Hs'. by rewrite decide_False by set_solver.
Qed.

(** ** The block registry *)

Lemma pretty_N_go_comma_free (x : N) (s : string) :
  comma_free s → comma_free (pretty_N_go x s).
Proof.
  revert s. induction (N.lt_wf_0 x) as [x _ IH]. intros s Hs.
  destruct (decide (x = 0%N)) as [->|Hx].
  - by rewrite pretty_N_go_0.
  - rewrite pretty_N_go_step by lia. apply IH.
    + apply N.div_lt; lia.
    + cbn. split; [|done]. unfold pretty_N_char. by repeat case_match.
Qed.

Lemma pretty_Z_comma_free (x : Z) : comma_free (pretty x).
Proof.
  assert (∀ p : positive, comma_free (pretty p)) as Hpos.
  { intros p. unfold pretty, pretty_positive, pretty, pretty_N.
    case_decide; [done|]. by apply pretty_N_go_comma_free. }
  destruct x as [|p|p]; [done | apply Hpos |].
  change (pretty (Z.neg p)) with ("-" +:+ pretty p). cbn. split; [done|apply Hpos].
Qed.

Lemma split_at_comma (s1 s2 r1 r2 : string) :
  comma_free s1 → comma_free s2 →
  s1 +:+ "," +:+ r1 = s2 +:+ "," +:+ r2 → s1 = s2 ∧ r1 = r2.
Proof.
  revert s2. induction s1 as [|c s1 IH]; intros [|c' s2] H1 H2 Heq; cbn in *.
  - by injection Heq.
  - injection Heq as <- _. by destruct H2.
  - injection Heq as -> _. by destruct H1.
  - injection Heq as -> Heq. destruct H1 as [_ H1], H2 as [_ H2].
    destruct (IH s2 H1 H2 Heq) as [-> ->]. done.
Qed.

Lemma blockKey_inj_aux (x y z x' y' z' : Z) :
  blockKey x y z = blockKey x' y' z' → x = x' ∧ y = y' ∧ z = z'.
Proof.
  unfold blockKey. intros Heq.
  apply split_at_comma in Heq as [Hx Heq]; [|apply pretty_Z_comma_free..].
  apply split_at_comma in Heq as [Hy Hz]; [|apply pretty_Z_comma_free..].
  by repeat split; apply (inj pretty).
Qed.

(** X23.  Different integer coordinates have different keys, so a block
    registered at one coordinate is never found, returned or removed at
    another: after [addBlock] at a free coordinate, any other coordinate is
    registered exactly as it was before. *)
Theorem blockKey_separates_coordinates (blockSize : R) (texture_loads : string → bool)
    (x y z x' y' z' : Z) (s : settings) (st : adapter) :
  (x, y, z) ≠ (x', y', z') →
  blockKey x y z ≠ blockKey x' y' z' ∧
  blocks (Three.addBlock blockSize texture_loads x y z s st).2 !! blockKey x' y' z' =
    blocks st !! blockKey x' y' z' ∧
  blocks (Three.removeBlock x y z st).2 !! blockKey x' y' z' =
    blocks st !! blockKey x' y' z'.
Proof.
  intros Hne.
  assert (blockKey x y z ≠ blockKey x' y' z') as Hkey.
  { intros Heq. apply blockKey_inj_aux in Heq as (-> & -> & ->). by apply Hne. }
  split; [done|]. unfold Three.addBlock, Three.removeBlock. split.
  - destruct (blocks st !! blockKey x y z); cbn; [done|]. by rewrite lookup_insert_ne.
  - destruct (blocks st !! blockKey x y z); cbn; [|done]. by rewrite lookup_delete_ne.
Qed.

Lemma blockKey_separates_coordinates_witness :
  blockKey 1 23 4 ≠ blockKey 12 3 4.
Proof.
  destruct (blockKey_separates_coordinates 1 (λ _, true) 1 23 4 12 3 4
              {| texture := None; color := None |}
              {| attached := []; blocks := ∅; disposed := []; assets := [];
                 next_oid := 0 |}) as [Hkey _]; [|exact Hkey].
  congruence.
Defined.

Lemma filter_all {A} (P : A → Prop) `{∀ x, Decision (P x)} (l : list A) :
  (∀ x, x ∈ l → P x) → filter P l = l.
Proof.
  induction l as [|x l IH]; intros Hall; [done|].
  rewrite filter_cons_True by (apply Hall; left).
  f_equal. apply IH. intros y Hy. apply Hall. by right.
Qed.

Lemma registry_ok_add (key : string) (mesh : block) (st : adapter)
    (dis : list nat) (ass : list string) :
  registry_ok st → oid mesh = next_oid st →
  registry_ok {| attached := attached st ++ [mesh];
                 blocks := <[key := mesh]> (blocks st);
                 disposed := dis; assets := ass;
                 next_oid := S (next_oid st) |}.
Proof.
  intros (Hatt & Hold & Huniq) Hoid. split; [|split]; cbn.
  - intros k b. rewrite lookup_insert. case_decide as Hk.
    + intros [= <-]. set_solver.
    + intros Hb. apply Hatt in Hb. set_solver.
  - intros b. rewrite elem_of_app, list_elem_of_singleton. intros [Hb| ->].
    + apply Hold in Hb. lia.
    + lia.
  - intros k k' b b'. rewrite !lookup_insert. repeat case_decide; subst.
    + done.
    + intros [= <-] Hb' Heq. apply Hatt, Hold in Hb'. lia.
    + intros Hb [= <-] Heq. apply Hatt, Hold in Hb. lia.
    + apply Huniq.
Qed.

Lemma registry_ok_remove (key : string) (m : block) (st : adapter) :
  registry_ok st → blocks st !! key = Some m →
  registry_ok {| attached := filter (λ o, oid o ≠ oid m) (attached st);
                 blocks := delete key (blocks st);
                 disposed := oid m :: disposed st; assets := assets st;
                 next_oid := next_oid st |}.
Proof.
  intros (Hatt & Hold & Huniq) Hm. split; [|split]; cbn.
  - intros k b. rewrite lookup_delete. case_decide as Hk; [done|].
    intros Hb. apply list_elem_of_filter. split; [|by apply Hatt in Hb].
    intros Heq. apply Hk. symmetry. by apply (Huniq k key b m).
  - intros b Hb. apply list_elem_of_filter in Hb as [_ Hb]. by apply Hold.
  - intros k k' b b'. rewrite !lookup_delete. repeat case_decide; try done.
    apply Huniq.
Qed.

(** X24.  Starting from an adapter whose registered blocks are all attached
    to the scene, under distinct identities older than the next one, every
    [addBlock] and [removeBlock] of the three adapters keeps that true: no
    registered block is ever missing from the scene. *)
Theorem registry_stays_consistent (blockSize : R)
    (texture_loads asset_ready : string → bool)
    (x y z : Z) (s : settings) (st : adapter) :
  registry_ok st →
  registry_ok (Three.addBlock blockSize texture_loads x y z s st).2 ∧
  registry_ok (Three.removeBlock x y z st).2 ∧
  registry_ok (Babylon.addBlock blockSize texture_loads x y z s st).2 ∧
  registry_ok (Babylon.removeBlock x y z st).2 ∧
  registry_ok (Playcanvas.addBlock blockSize asset_ready x y z s st).2 ∧
  registry_ok (Playcanvas.removeBlock x y z st).2.
Proof.
  intros Hok.
  unfold Three.addBlock, Three.removeBlock, Babylon.addBlock, Babylon.removeBlock,
    Playcanvas.addBlock, Playcanvas.removeBlock.
  destruct (blocks st !! blockKey x y z) as [m|] eqn:Hm; cbn [snd].
  - repeat split; try apply Hok; by apply registry_ok_remove.
  - assert (∀ ass, registry_ok {| attached := attached st; blocks := blocks st;
                                  disposed := disposed st; assets := ass;
                                  next_oid := S (next_oid st) |}) as Hbump.
    { intros ass. destruct Hok as (Hatt & Hold & Huniq). split; [|split]; cbn; [done| |done].
      intros b Hb. apply Hold in Hb. lia. }
    split; [by apply registry_ok_add|]. split; [done|].
    split; [by apply registry_ok_add|]. split; [done|]. split; [|done].
    destruct (texture_given s) as [url|].
    + destruct (asset_ready url); cbn [snd]; [|apply Hbump].
      destruct Hok as (Hatt & Hold & Huniq). split; [|split]; cbn.
      * intros k b. rewrite lookup_insert. case_decide as Hk.
        -- intros [= <-]. set_solver.
        -- intros Hb. apply Hatt in Hb. set_solver.
      * intros b. rewrite elem_of_app, list_elem_of_singleton. intros [Hb| ->].
        -- apply Hold in Hb. lia.
        -- cbn. lia.
      * intros k k' b b'. rewrite !lookup_insert. repeat case_decide; subst.
        -- done.
        -- intros [= <-] Hb' Heq. apply Hatt, Hold in Hb'. cbn in Heq. lia.
        -- intros Hb [= <-] Heq. apply Hatt, Hold in Hb. cbn in Heq. lia.
        -- apply Huniq.
    + cbn [snd]. destruct Hok as (Hatt & Hold & Huniq). split; [|split]; cbn.
      * intros k b. rewrite lookup_insert. case_decide as Hk.
        -- intros [= <-]. set_solver.
        -- intros Hb. apply Hatt in Hb. set_solver.
      * intros b. rewrite elem_of_app, list_elem_of_singleton. intros [Hb| ->].
        -- apply Hold in Hb. lia.
        -- cbn. lia.
      * intros k k' b b'. rewrite !lookup_insert. repeat case_decide; subst.
        -- done.
        -- intros [= <-] Hb' Heq. apply Hatt, Hold in Hb'. cbn in Heq. lia.
        -- intros Hb [= <-] Heq. apply Hatt, Hold in Hb. cbn in Heq. lia.
        -- apply Huniq.
Qed.

Lemma registry_ok_empty :
  registry_ok {| attached := []; blocks := ∅; disposed := []; assets := []; next_oid := 0 |}.
Proof.
  split; [|split]; cbn.
  - intros k b. by rewrite lookup_empty.
  - intros b Hb. by apply elem_of_nil in Hb.
  - intros k k' b b'. by rewrite lookup_empty.
Qed.

Lemma registry_stays_consistent_witness :
  let st0 := {| attached := []; blocks := ∅; disposed := []; assets := []; next_oid := 0 |} in
  registry_ok (Three.addBlock 1 (λ _, true) 0 0 0 {| texture := None; color := None |} st0).2.
Proof.
  intros st0.
  apply (registry_stays_consistent 1 (λ _, true) (λ _, true) 0 0 0
           {| texture := None; color := None |} st0).
  apply registry_ok_empty.
Defined.

(** X25.  [addBlock] at a free coordinate followed by [removeBlock] at the
    same coordinate gives the registry and the scene back as they were: the
    new object is taken out of the scene again and marked disposed, and no
    other object is touched. *)
Theorem addBlock_removeBlock_round_trip (blockSize : R) (texture_loads : string → bool)
    (x y z : Z) (s : settings) (st : adapter) :
  registry_ok st → blocks st !! blockKey x y z = None →
  let added := Three.addBlock blockSize texture_loads x y z s st in
  let removed := Three.removeBlock x y z added.2 in
  removed.1 = true ∧
  blocks removed.2 = blocks st ∧
  attached removed.2 = attached st ∧
  disposed removed.2 = oid added.1 :: disposed st.
Proof.
  intros (Hatt & Hold & Huniq) Hfree. unfold Three.addBlock. rewrite Hfree. cbn [fst snd].
  unfold Three.removeBlock. cbn [blocks]. rewrite lookup_insert_eq. cbn [fst snd blocks attached disposed oid].
  split; [done|]. split; [|split; [|done]].
  - rewrite delete_insert_eq. by apply delete_id.
  - rewrite filter_app, filter_cons_False, filter_nil, app_nil_r by (intros H; by apply H).
    apply filter_all. intros o Ho. apply Hold in Ho. cbn. lia.
Qed.

Lemma addBlock_removeBlock_round_trip_witness :
  let st0 := {| attached := []; blocks := ∅; disposed := []; assets := []; next_oid := 0 |} in
  let s := {| texture := None; color := None |} in
  let added := Three.addBlock 1 (λ _, true) 0 0 0 s st0 in
  let removed := Three.removeBlock 0 0 0 added.2 in
  removed.1 = true ∧ blocks removed.2 = ∅ ∧ attached removed.2 = [].
Proof.
  intros st0 s added removed.
  destruct (addBlock_removeBlock_round_trip 1 (λ _, true) 0 0 0 s st0)
    as (Htrue & Hblocks & Hattached & _).
  - apply registry_ok_empty.
  - apply lookup_empty.
  - by repeat split.
Defined.

(** X26.  [addBlock] looks at the registry only before its [await]: when two
    calls for the same free coordinate both start before either resumes,
    both create an object.  The scene then holds two objects for the
    coordinate while the registry knows the second only, so that
    [removeBlock] takes the second out and the first stays in the scene, out
    of reach of [removeBlock].  A call that is not interleaved is
    [Three.addBlock]. *)
Theorem interleaved_addBlock_orphans_a_block (blockSize : R)
    (texture_loads : string → bool) (x y z : Z) (s1 s2 : settings) (st : adapter) :
  registry_ok st → blocks st !! blockKey x y z = None →
  let first := ThreeAsync.after_await blockSize texture_loads x y z s1 st in
  let second := ThreeAsync.after_await blockSize texture_loads x y z s2 first.2 in
  let removed := Three.removeBlock x y z second.2 in
  ThreeAsync.before_await x y z st = None ∧
  Three.addBlock blockSize texture_loads x y z s1 st = first ∧
  oid first.1 ≠ oid second.1 ∧
  attached second.2 = attached st ++ [first.1; second.1] ∧
  blocks second.2 !! blockKey x y z = Some second.1 ∧
  removed.1 = true ∧
  attached removed.2 = attached st ++ [first.1] ∧
  blocks removed.2 !! blockKey x y z = None ∧
  Three.removeBlock x y z removed.2 = (false, removed.2).
Proof.
  intros (Hatt & Hold & Huniq) Hfree first second removed.
  unfold ThreeAsync.before_await. split; [done|].
  split; [unfold Three.addBlock; by rewrite Hfree|].
  unfold removed, second, first, ThreeAsync.after_await, Three.removeBlock.
  cbn [fst snd blocks attached oid next_oid].
  rewrite !lookup_insert_eq. cbn [fst snd blocks attached oid].
  split; [lia|]. split; [by rewrite <- app_assoc|]. split; [done|]. split; [done|].
  assert (filter (λ o, oid o ≠ S (next_oid st))
            ((attached st ++ [ {| oid := next_oid st;
                                  position := block_position blockSize x y z;
                                  block_material := Three.makeMaterial texture_loads s1 |} ])
             ++ [ {| oid := S (next_oid st);
                     position := block_position blockSize x y z;
                     block_material := Three.makeMaterial texture_loads s2 |} ]) =
          attached st ++ [ {| oid := next_oid st;
                              position := block_position blockSize x y z;
                              block_material := Three.makeMaterial texture_loads s1 |} ])
    as Hfilter.
  { rewrite filter_app, filter_cons_False, filter_nil, app_nil_r by (intros H; by apply H).
    apply filter_all. intros o. rewrite elem_of_app, list_elem_of_singleton.
    intros [Ho| ->]; [apply Hold in Ho|]; cbn; lia. }
  rewrite Hfilter. split; [done|].
  rewrite lookup_delete_eq. done.
Qed.

Lemma interleaved_addBlock_orphans_a_block_witness :
  let st0 := {| attached := []; blocks := ∅; disposed := []; assets := []; next_oid := 0 |} in
  let s := {| texture := None; color := None |} in
  let first := ThreeAsync.after_await 1 (λ _, true) 0 0 0 s st0 in
  let second := ThreeAsync.after_await 1 (λ _, true) 0 0 0 s first.2 in
  let removed := Three.removeBlock 0 0 0 second.2 in
  attached removed.2 = [first.1] ∧ blocks removed.2 !! blockKey 0 0 0 = None.
Proof.
  intros st0 s first second removed.
  destruct (interleaved_addBlock_orphans_a_block 1 (λ _, true) 0 0 0 s s st0)
    as (_ & _ & _ & _ & _ & _ & Hattached & Hblocks & _).
  - apply registry_ok_empty.
  - apply lookup_empty.
  - by split.
Defined.

(** ** More on the loader *)

Section loader_more.
Variable import : string → option js_module.
Variable window : option (option js_module).
Variable init_succeeds : engine → js_module → bool.

Lemma for_of_app (l1 l2 : list string) :
  for_of import window init_succeeds (l1 ++ l2) =
    match for_of import window init_succeeds l1 with
    | (t, Fell_through) =>
        (t ++ (for_of import window init_succeeds l2).1,
         (for_of import window init_succeeds l2).2)
    | stop => stop
    end.
Proof.
  induction l1 as [|name l1 IH]; cbn [app for_of].
  - by destruct (for_of import window init_succeeds l2).
  - destruct (candidate import window init_succeeds name) as [t [hd| |e]]; [done| |done].
    rewrite IH.
    destruct (for_of import window init_succeeds l1) as [t1 [hd| |e]]; cbn [fst snd];
      [done| |done].
    by rewrite app_assoc.
Qed.

(** The only exception that leaves the loop is the [ReferenceError] of the
    read of [window]. *)
Lemma candidate_thrown (name : string) (t : list event) (e : js_error) :
  candidate import window init_succeeds name = (t, Thrown e) →
  e = ReferenceError "window is not defined".
Proof.
  unfold candidate, if_loaded, or_else, tryImport, initThree, initBabylon, initPlaycanvas.
  repeat case_decide;
    repeat match goal with
    | |- context [import ?s] => destruct (import s)
    | |- context [init_succeeds ?e ?m] => destruct (init_succeeds e m)
    | |- context [match window with _ => _ end] => destruct window as [[?|]|]
    | |- context [if ?b then _ else _] => destruct b
    | _ => progress cbn
    end; congruence.
Qed.

Lemma for_of_thrown (prefer : list string) (t : list event) (e : js_error) :
  for_of import window init_succeeds prefer = (t, Thrown e) →
  e = ReferenceError "window is not defined".
Proof.
  revert t. induction prefer as [|name rest IH]; intros t; cbn [for_of]; [done|].
  destruct (candidate import window init_succeeds name) as [t1 [hd| |e1]] eqn:Hc.
  - done.
  - destruct (for_of import window init_succeeds rest) as [t2 r]. cbn [fst snd].
    intros [= <- ->]. by eapply IH.
  - intros [= <- <-]. by eapply candidate_thrown.
Qed.
End loader_more.

(** X27.  Names added after a preference list are fallbacks only: when the
    list alone yields a handle, the longer list yields the same handle after
    the same loads and initialisations, and when the list alone ends in the
    [ReferenceError] of a missing [window], so does the longer list; when it
    ends in the error "No supported 3D engine available. ...", the longer
    list goes on with the added names, and its outcome is theirs.  An empty
    list is not replaced by the default order: it throws at once, with no
    load attempted. *)
Theorem createEngine_fallback_names (import : string → option js_module)
    (window : option (option js_module)) (init_succeeds : engine → js_module → bool)
    (l1 l2 : list string) :
  let run := createEngine import window init_succeeds in
  (∀ t hd, run (Some l1) = (t, inl hd) → run (Some (l1 ++ l2)) = (t, inl hd)) ∧
  (∀ t msg, run (Some l1) = (t, inr (ReferenceError msg)) →
            run (Some (l1 ++ l2)) = (t, inr (ReferenceError msg))) ∧
  (∀ t msg, run (Some l1) = (t, inr (Error msg)) →
            run (Some (l1 ++ l2)) = (t ++ (run (Some l2)).1, (run (Some l2)).2)) ∧
  run (Some []) = ([], inr (Error no_engine_message)).
Proof.
  intros run. unfold run, createEngine. cbn -[for_of app].
  rewrite for_of_app.
  destruct (for_of import window init_succeeds l1) as [t1 [hd1| |e1]] eqn:H1.
  - split; [|split; [|split; [|done]]]; [by intros t hd [= <- <-] | by intros ? ? [=]..].
  - split; [|split; [|split; [|done]]]; [by intros ? ? [=] | by intros ? ? [=] |].
    intros t msg [= <- _]. cbn [fst snd].
    by destruct (for_of import window init_succeeds l2) as [t2 [hd2| |e2]].
  - apply for_of_thrown in H1 as ->.
    split; [|split; [|split; [|done]]]; [by intros ? ? [=] | | by intros ? ? [=]].
    by intros t msg [= <- <-].
Qed.

(** ** Shaders *)

Lemma g_run_do {B} (c : gl_call) (k : unit → G B) (g : gl_context) :
  (gl_do c ≫= k) g =
    k () {| gl_calls := gl_calls g ++ [c]; gl_next := gl_next g;
            gl_shaders := gl_shaders g; gl_programs := gl_programs g |}.
Proof. reflexivity. Qed.

Lemma g_run_ret {A B} (x : A) (k : A → G B) (g : gl_context) : (mret x ≫= k) g = k x g.
Proof. reflexivity. Qed.

Lemma g_run_assoc {A B C} (m : G A) (f : A → G B) (k : B → G C) (g : gl_context) :
  ((m ≫= f) ≫= k) g = (m ≫= (λ x, f x ≫= k)) g.
Proof. unfold mbind, G_bind. by destruct (m g) as [[a|e] g']. Qed.

Lemma createShader_run {B} (d : gl_driver) (type : shader_type) (src : string)
    (k : nat → G B) (g : gl_context) :
  (shader.createShader d type src ≫= k) g =
    let n := gl_next g in
    let g' := {| gl_calls := gl_calls g ++ [gl_createShader type n; gl_shaderSource n src;
                                            gl_compileShader n];
                 gl_next := S n;
                 gl_shaders := <[n := (type, src)]> (gl_shaders g);
                 gl_programs := gl_programs g |} in
    if compiles d type src then k n g'
    else (inr (Error ("Shader compile error: " +:+ shader_log d type src)), g').
Proof.
  unfold shader.createShader, GL.createShader, GL.shaderSource, GL.COMPILE_STATUS,
    GL.getShaderInfoLog, gl_gen, gl_do, gl_set_shader, g_throw.
  unfold mbind, G_bind, mret, G_ret.
  repeat first [rewrite lookup_insert_eq
               | progress cbn [gl_calls gl_next gl_shaders gl_programs fst snd]].
  rewrite insert_insert_eq, <- !app_assoc. cbn [app].
  destruct (compiles d type src); cbn [negb]; [done|].
  repeat first [rewrite lookup_insert_eq
               | progress cbn [gl_calls gl_next gl_shaders gl_programs fst snd]].
  done.
Qed.

Lemma link_run (d : gl_driver) (v f : nat) (sv sf : shader_type * string) (g : gl_context) :
  gl_shaders g !! v = Some sv → gl_shaders g !! f = Some sf →
  let p := gl_next g in
  let g' := {| gl_calls := gl_calls g ++ [gl_createProgram p; gl_attachShader p v;
                                          gl_attachShader p f; gl_linkProgram p];
               gl_next := S p;
               gl_shaders := gl_shaders g;
               gl_programs := <[p := [v; f]]> (gl_programs g) |} in
  (program ← GL.createProgram;
   GL.attachShader program v;;
   GL.attachShader program f;;
   gl_do (gl_linkProgram program);;
   ok ← GL.LINK_STATUS (links d) program;
   if negb ok then
     log ← GL.getProgramInfoLog (program_log d) program;
     g_throw (Error ("Shader link error: " +:+ log))
   else mret program) g =
  (if links d [sv; sf] then inl p
   else inr (Error ("Shader link error: " +:+ program_log d [sv; sf])), g').
Proof.
  intros Hv Hf p g'.
  unfold GL.createProgram, GL.attachShader, GL.LINK_STATUS, GL.getProgramInfoLog,
    GL.attached_sources, gl_gen, gl_do, gl_set_program, g_throw.
  unfold mbind, G_bind, mret, G_ret.
  repeat first [rewrite lookup_insert_eq | rewrite insert_insert_eq
               | rewrite Hv | rewrite Hf
               | progress cbn [default from_option Datatypes.id app omap list_omap
                               gl_calls gl_next gl_shaders gl_programs fst snd]].
  rewrite <- !app_assoc. cbn [app]. fold p.
  destruct (links d [sv; sf]); cbn [negb]; [done|].
  repeat first [rewrite lookup_insert_eq | rewrite Hv | rewrite Hf
               | progress cbn [default from_option Datatypes.id app omap list_omap
                               gl_calls gl_next gl_shaders gl_programs fst snd]].
  done.
Qed.

(** X28.  [createShaderProgram] reports the first failure only: a vertex
    shader that does not compile throws "Shader compile error: " with its
    log before the fragment shader is even created; with a good vertex
    shader, a bad fragment shader throws its own compile error before any
    program is created; two good shaders that do not link throw "Shader link
    error: " with the program log; otherwise the new program is returned,
    with both shaders attached, vertex first. *)
Theorem createShaderProgram_first_failure (d : gl_driver) (vertexSrc fragmentSrc : string)
    (g : gl_context) :
  let n := gl_next g in
  let r := shader.createShaderProgram d vertexSrc fragmentSrc g in
  let vertex_calls := [gl_createShader VERTEX_SHADER n; gl_shaderSource n vertexSrc;
                       gl_compileShader n] in
  let fragment_calls := [gl_createShader FRAGMENT_SHADER (S n);
                         gl_shaderSource (S n) fragmentSrc; gl_compileShader (S n)] in
  let program_calls := [gl_createProgram (S (S n)); gl_attachShader (S (S n)) n;
                        gl_attachShader (S (S n)) (S n); gl_linkProgram (S (S n))] in
  let sources := [(VERTEX_SHADER, vertexSrc); (FRAGMENT_SHADER, fragmentSrc)] in
  (compiles d VERTEX_SHADER vertexSrc = false →
     r.1 = inr (Error ("Shader compile error: " +:+ shader_log d VERTEX_SHADER vertexSrc)) ∧
     gl_calls r.2 = gl_calls g ++ vertex_calls) ∧
  (compiles d VERTEX_SHADER vertexSrc = true →
   compiles d FRAGMENT_SHADER fragmentSrc = false →
     r.1 = inr (Error ("Shader compile error: " +:+
                       shader_log d FRAGMENT_SHADER fragmentSrc)) ∧
     gl_calls r.2 = gl_calls g ++ vertex_calls ++ fragment_calls) ∧
  (compiles d VERTEX_SHADER vertexSrc = true →
   compiles d FRAGMENT_SHADER fragmentSrc = true →
     gl_calls r.2 = gl_calls g ++ vertex_calls ++ fragment_calls ++ program_calls ∧
     gl_programs r.2 !! S (S n) = Some [n; S n] ∧
     r.1 = if links d sources then inl (S (S n))
           else inr (Error ("Shader link error: " +:+ program_log d sources))).
Proof.
  intros n r vertex_calls fragment_calls program_calls sources.
  assert (r =
    (if compiles d VERTEX_SHADER vertexSrc then
       if compiles d FRAGMENT_SHADER fragmentSrc then
         (if links d sources then inl (S (S n))
          else inr (Error ("Shader link error: " +:+ program_log d sources)),
          {| gl_calls := gl_calls g ++ vertex_calls ++ fragment_calls ++ program_calls;
             gl_next := S (S (S n));
             gl_shaders := <[S n := (FRAGMENT_SHADER, fragmentSrc)]>
                             (<[n := (VERTEX_SHADER, vertexSrc)]> (gl_shaders g));
             gl_programs := <[S (S n) := [n; S n]]> (gl_programs g) |})
       else
         (inr (Error ("Shader compile error: " +:+
                      shader_log d FRAGMENT_SHADER fragmentSrc)),
          {| gl_calls := gl_calls g ++ vertex_calls ++ fragment_calls;
             gl_next := S (S n);
             gl_shaders := <[S n := (FRAGMENT_SHADER, fragmentSrc)]>
                             (<[n := (VERTEX_SHADER, vertexSrc)]> (gl_shaders g));
             gl_programs := gl_programs g |})
     else
       (inr (Error ("Shader compile error: " +:+ shader_log d VERTEX_SHADER vertexSrc)),
        {| gl_calls := gl_calls g ++ vertex_calls;
           gl_next := S n;
           gl_shaders := <[n := (VERTEX_SHADER, vertexSrc)]> (gl_shaders g);
           gl_programs := gl_programs g |}))) as Hr.
  { unfold r, shader.createShaderProgram.
    rewrite createShader_run. cbv zeta. fold n.
    destruct (compiles d VERTEX_SHADER vertexSrc); [|done].
    rewrite createShader_run. cbv zeta. cbn [gl_calls gl_next gl_shaders gl_programs].
    destruct (compiles d FRAGMENT_SHADER fragmentSrc).
    - erewrite (link_run d n (S n)); cbn [gl_calls gl_next gl_shaders gl_programs];
        [| rewrite lookup_insert_ne by lia; apply lookup_insert_eq | apply lookup_insert_eq].
      fold sources. by rewrite <- !app_assoc.
    - by rewrite <- !app_assoc. }
  rewrite Hr. split; [|split].
  - intros ->. by split.
  - intros -> ->. by split.
  - intros -> ->. destruct (links d sources); cbn [fst snd gl_calls gl_programs];
      by rewrite lookup_insert_eq.
Qed.

Lemma createShaderProgram_first_failure_witness :
  let d := {| compiles := λ type _, match type with VERTEX_SHADER => false | _ => true end;
              shader_log := λ _ _, "ERROR: 0:1: syntax error";
              links := λ _, true; program_log := λ _, "";
              attrib_location := λ _ _, 0%Z; uniform_location := λ _ _, None |} in
  let g := {| gl_calls := []; gl_next := 1; gl_shaders := ∅; gl_programs := ∅ |} in
  (shader.createShaderProgram d "void main( {}" "void main() {}" g).1 =
    inr (Error "Shader compile error: ERROR: 0:1: syntax error").
Proof.
  intros d g.
  destruct (createShaderProgram_first_failure d "void main( {}" "void main() {}" g)
    as [Hvertex _].
  destruct Hvertex as [Herr _]; [reflexivity|]. exact Herr.
Defined.
(** ** Drawing *)

Lemma do_step {B} (c : gl_call) (k : unit → G B) (g : gl_context) :
  (gl_do c ≫= k) g = k () (gl_append g [c]).
Proof. reflexivity. Qed.

Lemma do_last (c : gl_call) (g : gl_context) : gl_do c g = (inl (), gl_append g [c]).
Proof. reflexivity. Qed.

Lemma gl_append_nil (g : gl_context) : gl_append g [] = g.
Proof. destruct g. unfold gl_append. simpl. by rewrite app_nil_r. Qed.

Lemma gl_append_append (g : gl_context) (l1 l2 : list gl_call) :
  gl_append (gl_append g l1) l2 = gl_append g (l1 ++ l2).
Proof. unfold gl_append. simpl. by rewrite app_assoc. Qed.

Lemma attribute_step {B} (index : option nat) (size strideBytes offset : nat)
    (k : unit → G B) (g : gl_context) :
  (MeshGL_.attribute index size strideBytes offset ≫= k) g =
    k () (gl_append g (attribute_calls index size strideBytes offset)).
Proof.
  destruct index as [i|]; unfold MeshGL_.attribute, attribute_calls.
  - by rewrite g_run_assoc, do_step, do_step, gl_append_append.
  - by rewrite g_run_ret, gl_append_nil.
Qed.

Lemma draw_run (mesh : Mesh) (gls : MeshGL) (cam : Camera_.Camera) (h : heap)
    (g : gl_context) :
  MeshGL_.draw mesh gls (Some cam) h g =
    (inl (),
     gl_append g
       ([gl_useProgram (program gls);
         gl_uniformMatrix4fv (uProjection (uniformLocations gls))
                             (default [] (h !! Camera_.projection cam));
         gl_uniformMatrix4fv (uView (uniformLocations gls))
                             (default [] (h !! Camera_.view cam));
         gl_uniformMatrix4fv (uModel (uniformLocations gls))
                             (default [] (h !! model mesh));
         gl_bindBuffer_ARRAY (vbo gls)] ++
        attribute_calls (aPosition (attributeLocations gls)) 3 (stride gls * 4) 0 ++
        attribute_calls (aNormal (attributeLocations gls)) 3 (stride gls * 4) (3 * 4) ++
        attribute_calls (aUV (attributeLocations gls)) 2 (stride gls * 4) (6 * 4) ++
        match indices gls with
        | Some l => [gl_bindBuffer_ELEMENT_ARRAY (ibo gls);
                     gl_drawElements_TRIANGLES (length l)]
        | None => [gl_drawArrays_TRIANGLES
                     (INR (length (vertices gls)) / INR (stride gls))]
        end)).
Proof.
  unfold MeshGL_.draw, MeshGL_.enableAttributes. cbv beta zeta.
  generalize (INR (length (vertices gls)) / INR (stride gls)).
  generalize (default [] (h !! Camera_.projection cam)) (default [] (h !! Camera_.view cam))
    (default [] (h !! model mesh)).
  intros m1 m2 m3 count.
  repeat first [rewrite do_step | rewrite attribute_step | rewrite g_run_assoc
               | progress cbv beta].
  destruct (indices gls);
    repeat first [rewrite do_step | rewrite do_last | progress cbv beta];
    rewrite !gl_append_append; rewrite <- ?app_assoc; reflexivity.
Qed.

(** X29.  A mesh that was constructed draws with exactly one draw call, the
    last call of [draw]: [drawElements] over all the indices when the data had
    an index list (an empty one included), [drawArrays] over
    [vertices.length / stride] otherwise, the stride being at least 1.  The
    attributes it enables are those the program has, in the order position,
    normal, uv: an attribute the driver reports at -1 is skipped, one at
    location 0 is used. *)
Theorem draw_after_construction (d : gl_driver) (data_vertices : list R)
    (data_indices : option (list N)) (data_stride : option nat)
    (vertexSrc fragmentSrc : string) (mesh : Mesh) (cam : Camera_.Camera)
    (h : heap) (g g1 : gl_context) (gls : MeshGL) :
  MeshGL_.constructor d data_vertices data_indices data_stride vertexSrc fragmentSrc g =
    (inl gls, g1) →
  let r := MeshGL_.draw mesh gls (Some cam) h g1 in
  let the_draw :=
    match data_indices with
    | Some l => gl_drawElements_TRIANGLES (length l)
    | None => gl_drawArrays_TRIANGLES (INR (length data_vertices) / INR (stride gls))
    end in
  (1 ≤ stride gls)%nat ∧
  r.1 = inl () ∧
  ∃ calls,
    gl_calls r.2 = gl_calls g1 ++ calls ∧
    filter is_draw_call calls = [the_draw] ∧
    last calls = Some the_draw ∧
    omap enabled_attribute calls =
      omap (λ name, MeshGL_.location_or_null (attrib_location d (program gls) name))
           ["aPosition"; "aNormal"; "aUV"].
Proof.
  intros Hnew r the_draw.
  assert (stride gls = match data_stride with
                       | Some n => if decide (n = 0%nat) then 8%nat else n
                       | None => 8%nat
                       end ∧
          vertices gls = data_vertices ∧ indices gls = data_indices ∧
          attributeLocations gls =
            {| aPosition := MeshGL_.location_or_null
                              (attrib_location d (program gls) "aPosition");
               aNormal := MeshGL_.location_or_null
                            (attrib_location d (program gls) "aNormal");
               aUV := MeshGL_.location_or_null
                        (attrib_location d (program gls) "aUV") |})
    as (Hstride & Hvert & Hind & Hattr).
  { unfold MeshGL_.constructor in Hnew. unfold mbind at 1, G_bind at 1 in Hnew.
    destruct (shader.createShaderProgram d vertexSrc fragmentSrc g) as [[p|e] g0];
      [|discriminate Hnew].
    unfold GL.createBuffer, gl_gen, gl_do, mbind, G_bind, mret, G_ret in Hnew.
    destruct data_indices; cbn [fst snd] in Hnew; injection Hnew as <- _; done. }
  clear Hnew. split.
  { rewrite Hstride. destruct data_stride as [n|]; [|lia]. case_decide; lia. }
  unfold r. rewrite (draw_run mesh gls cam h g1). unfold gl_append.
  cbn [fst snd gl_calls].
  split; [done|]. eexists. split; [reflexivity|].
  rewrite Hattr, Hind, Hvert. cbn [aPosition aNormal aUV]. unfold the_draw, attribute_calls.
  generalize (INR (length data_vertices) / INR (stride gls)).
  generalize (default [] (h !! Camera_.projection cam)) (default [] (h !! Camera_.view cam))
    (default [] (h !! model mesh)).
  intros m1 m2 m3 count.
  destruct (MeshGL_.location_or_null (attrib_location d (program gls) "aPosition"))
    eqn:Hposition;
    destruct (MeshGL_.location_or_null (attrib_location d (program gls) "aNormal"))
      eqn:Hnormal;
    destruct (MeshGL_.location_or_null (attrib_location d (program gls) "aUV")) eqn:HUV;
    destruct data_indices;
    (split; [reflexivity|split; [reflexivity|]]);
    cbn [app omap list_omap enabled_attribute];
    rewrite Hposition, Hnormal, HUV; reflexivity.
Qed.

Lemma draw_after_construction_witness :
  let d := {| compiles := λ _ _, true; shader_log := λ _ _, "";
              links := λ _, true; program_log := λ _, "";
              attrib_location := λ _ name, if decide (name = "aPosition") then 0%Z else (-1)%Z;
              uniform_location := λ _ _, Some 0%nat |} in
  let g := {| gl_calls := []; gl_next := 1; gl_shaders := ∅; gl_programs := ∅ |} in
  let new := MeshGL_.constructor d [0; 0; 0; 0; 0; 1; 0; 0] (Some [0; 0; 0]%N) None "" "" g in
  let this := {| rotationSpeed := 1%positive; rotation := 2%positive; model := 3%positive |} in
  let cam := {| Camera_.projection := 4%positive; Camera_.position := 5%positive;
                Camera_.view := 6%positive |} in
  ∃ gls g1, new = (inl gls, g1) ∧
    ∃ calls, gl_calls (MeshGL_.draw this gls (Some cam) ∅ g1).2 = gl_calls g1 ++ calls ∧
             filter is_draw_call calls = [gl_drawElements_TRIANGLES 3] ∧
             omap enabled_attribute calls = [0%nat].
Proof.
  intros d g new this cam.
  assert (∃ gls g1, new = (inl gls, g1)) as (gls & g1 & Hnew)
    by (eexists _, _; vm_compute; reflexivity).
  exists gls, g1. split; [exact Hnew|].
  destruct (draw_after_construction d [0; 0; 0; 0; 0; 1; 0; 0] (Some [0; 0; 0]%N) None
              "" "" this cam ∅ g g1 gls Hnew) as (_ & _ & calls & Hcalls & Hdraw & _ & Hattr).
  exists calls. split; [exact Hcalls|]. split; [exact Hdraw|]. exact Hattr.
Defined.

(** ** The renderer *)

(** X30.  With at least one mesh in the scene, a frame clears the buffers
    and then stops at the first mesh: its [update] throws the [TypeError] of
    the missing [mat4.identity], so that nothing is drawn, no later mesh is
    updated, and [start()] throws without requesting a next frame.  With no
    mesh, the frame only clears, and [start()] requests the next frame. *)
Theorem frame_stops_at_first_update (this : WebGL3D) (mesh : Mesh) (gls : MeshGL)
    (rest : list (Mesh * MeshGL)) (r0 r1 r2 s0 s1 s2 : R) (h : heap) (g : gl_context) :
  meshes this = (mesh, gls) :: rest →
  h !! rotation mesh = Some [r0; r1; r2] →
  h !! rotationSpeed mesh = Some [s0; s1; s2] →
  rotation mesh ≠ rotationSpeed mesh →
  let h1 : heap := <[rotation mesh := [r0 + s0; r1 + s1; r2 + s2]]> h in
  let g1 := {| gl_calls := gl_calls g ++ [gl_clear_COLOR_DEPTH]; gl_next := gl_next g;
               gl_shaders := gl_shaders g; gl_programs := gl_programs g |} in
  WebGL3D_.start this h g =
    (Frame_throw (TypeError "mat4.identity is not a function") h1 g1, false) ∧
  filter is_draw_call (gl_calls g1) = filter is_draw_call (gl_calls g) ∧
  WebGL3D_.start {| meshes := []; camera := camera this; background := background this |} h g =
    (Frame_ok h g1, true).
Proof.
  intros Hmeshes Hr Hs Hne h1 g1.
  unfold WebGL3D_.start, WebGL3D_.render. rewrite Hmeshes. cbn [WebGL3D_.for_meshes meshes].
  rewrite (update_throws mesh r0 r1 r2 s0 s1 s2 h) by done.
  split; [done|]. split; [|done].
  unfold g1. cbn [gl_calls]. rewrite filter_app.
  change (filter is_draw_call [gl_clear_COLOR_DEPTH]) with (@nil gl_call).
  apply app_nil_r.
Qed.

Lemma frame_stops_at_first_update_witness :
  let mesh := {| rotationSpeed := 1%positive; rotation := 2%positive; model := 3%positive |} in
  let gls := {| vertices := []; indices := None; stride := 8; program := 0; vbo := 1;
                ibo := None;
                attributeLocations := {| aPosition := None; aNormal := None; aUV := None |};
                uniformLocations := {| uProjection := None; uView := None; uModel := None;
                                       uColor := None; uTexture := None |} |} in
  let this := {| meshes := [(mesh, gls)]; camera := None; background := [] |} in
  let h : heap := {[ 1%positive := [1 / 100; 1 / 100; 0]; 2%positive := [0; 0; 0];
                     3%positive := identity_matrix ]} in
  let g := {| gl_calls := []; gl_next := 2; gl_shaders := ∅; gl_programs := ∅ |} in
  (WebGL3D_.start this h g).2 = false.
Proof.
  intros mesh gls this h g.
  destruct (frame_stops_at_first_update this mesh gls [] 0 0 0 (1 / 100) (1 / 100) 0 h g)
    as (Hstart & _); [reflexivity | reflexivity | reflexivity | discriminate |].
  rewrite Hstart. reflexivity.
Defined.

